(** * climetlab: the Magics plotting driver

    A shallow embedding of [climetlab/plotting/drivers/magics/__init__.py]:
    the directive classes ([Action] and its subclasses), [Layer], the value
    resolution function [_apply] and the [Driver] methods that build the
    list of directives handed to Magics.

    Conventions of the embedding.
    - Python values are the inductive [pyvalue]; a [dict] is an association
      list in insertion order with unique keys, as Python dicts are; keys
      are strings (every dictionary the module reads is keyed by strings),
      and strings are ASCII.
    - [Action] instances are mutable and shared ([FieldAction.default_style]
      is one object for every field layer), so they live in a store
      ([heap]) and are passed around as locations.
    - A method that can raise or touch the store is a function
      [world -> outcome A]; [Raise e] aborts the call, and the store after
      an exception is not described.
    - What the module imports from elsewhere (the [magics.yaml] vocabulary,
      [get_data_entry], [BoundingBox.add_margins]) is a [Variable] of the
      section. *)

From Stdlib Require Import ZArith Floats Ascii DecimalString Sorted Permutation.
From Stdlib Require OrderedTypeEx.
From stdpp Require Import base list strings.

Local Open Scope string_scope.
Local Open Scope list_scope.

(** ** Python values *)

#[warnings="-register-all"]
Inductive pyvalue : Type :=
| VNone
| VBool (b : bool)
| VInt (z : Z)
| VFloat (f : float)
| VStr (s : string)
| VList (l : list pyvalue)
| VDict (d : list (string * pyvalue))
| VOther (tag : nat).      (* any other object: an array, a dataset, ... *)

Abbreviation dict := (list (string * pyvalue)).

(** [key in d] *)
Fixpoint dict_in (k : string) (d : dict) : bool :=
  match d with
  | [] => false
  | (k', _) :: d' => if String.eqb k k' then true else dict_in k d'
  end.

(** [d.get(k)] *)
Fixpoint dict_lookup (k : string) (d : dict) : option pyvalue :=
  match d with
  | [] => None
  | (k', v) :: d' => if String.eqb k k' then Some v else dict_lookup k d'
  end.

(** [d.get(k, dflt)] *)
Definition dict_get (k : string) (dflt : pyvalue) (d : dict) : pyvalue :=
  match dict_lookup k d with Some v => v | None => dflt end.

(** [d[k] = v]: an existing key keeps its place, a new one goes last. *)
Fixpoint dict_set (k : string) (v : pyvalue) (d : dict) : dict :=
  match d with
  | [] => [(k, v)]
  | (k', v') :: d' =>
      if String.eqb k k' then (k', v) :: d' else (k', v') :: dict_set k v d'
  end.

(** [d.pop(k, None)], the popped value dropped. *)
Fixpoint dict_pop (k : string) (d : dict) : dict :=
  match d with
  | [] => []
  | (k', v') :: d' =>
      if String.eqb k k' then d' else (k', v') :: dict_pop k d'
  end.

Definition dict_keys (d : dict) : list string := map fst d.

(** ** Exceptions *)

Inductive exn : Type :=
| KeyError
| TypeError
| AttributeError
| IndexError
| AssertionError
| ZeroDivisionError
| OverflowError
| Exception (msg : string)
| ExternalError            (* raised inside an imported collaborator *)
| Unmodelled.              (* a module-level object that is no directive class,
                              a [repr] the model does not compute, a dangling
                              location *)

(** ** Numbers: [int] (with [bool]) and [float] *)

Inductive number : Type := NInt (z : Z) | NFloat (f : float).

Definition as_number (v : pyvalue) : option number :=
  match v with
  | VInt z => Some (NInt z)
  | VBool b => Some (NInt (if b then 1 else 0))
  | VFloat f => Some (NFloat f)
  | _ => None
  end.

Definition is_infinite (f : float) : bool :=
  match Prim2SF f with S754_infinity _ => true | _ => false end.

(** [float(z)]: round to nearest, ties to even; too large raises. *)
Definition float_of_int (z : Z) : exn + float :=
  let f := SF2Prim (binary_normalize prec emax z 0 false) in
  if is_infinite f then inl OverflowError else inr f.

(** [a / b] on ints: the correctly rounded quotient.  The quotient is taken
    with enough extra bits and a sticky bit for the remainder, then rounded
    once. *)
Definition int_true_divide (a b : Z) : exn + float :=
  if (b =? 0)%Z then inl ZeroDivisionError
  else
    let neg := xorb (a <? 0)%Z (b <? 0)%Z in
    if (a =? 0)%Z then inr (if neg then (-0)%float else 0%float)
    else
      let a' := Z.abs a in
      let b' := Z.abs b in
      let k := Z.max 0 (64 + Z.log2 b' - Z.log2 a') in
      let q := (Z.shiftl a' k / b')%Z in
      let r := (Z.shiftl a' k mod b')%Z in
      let m := (2 * q + (if (r =? 0)%Z then 0 else 1))%Z in
      let f := SF2Prim (binary_normalize prec emax (if neg then (- m)%Z else m)
                          (- k - 1) false) in
      if is_infinite f then inl OverflowError else inr f.

Definition is_zero (f : float) : bool := PrimFloat.eqb f 0%float.

(** [x - y] *)
Definition py_sub (x y : pyvalue) : exn + pyvalue :=
  match as_number x, as_number y with
  | Some (NInt a), Some (NInt b) => inr (VInt (a - b))
  | Some (NInt a), Some (NFloat g) =>
      match float_of_int a with
      | inr f => inr (VFloat (f - g)%float)
      | inl e => inl e
      end
  | Some (NFloat f), Some (NInt b) =>
      match float_of_int b with
      | inr g => inr (VFloat (f - g)%float)
      | inl e => inl e
      end
  | Some (NFloat f), Some (NFloat g) => inr (VFloat (f - g)%float)
  | _, _ => inl TypeError
  end.

(** [x / y] *)
Definition py_truediv (x y : pyvalue) : exn + pyvalue :=
  match as_number x, as_number y with
  | Some (NInt a), Some (NInt b) =>
      match int_true_divide a b with
      | inr f => inr (VFloat f)
      | inl e => inl e
      end
  | Some (NInt a), Some (NFloat g) =>
      match float_of_int a with
      | inr f => if is_zero g then inl ZeroDivisionError
                 else inr (VFloat (f / g)%float)
      | inl e => inl e
      end
  | Some (NFloat f), Some (NInt b) =>
      match float_of_int b with
      | inr g => if is_zero g then inl ZeroDivisionError
                 else inr (VFloat (f / g)%float)
      | inl e => inl e
      end
  | Some (NFloat f), Some (NFloat g) =>
      if is_zero g then inl ZeroDivisionError else inr (VFloat (f / g)%float)
  | _, _ => inl TypeError
  end.

(** ** Directive classes

    [Action] and its subclasses, in the order the module declares them. *)

Inductive cls : Type :=
| Action | mcont | mcoast | mmap | FieldAction | mgrib | mnetcdf | minput
| mtable | mtext | msymb | output.

Definition cls_eqb (a b : cls) : bool :=
  match a, b with
  | Action, Action | mcont, mcont | mcoast, mcoast | mmap, mmap
  | FieldAction, FieldAction | mgrib, mgrib | mnetcdf, mnetcdf
  | minput, minput | mtable, mtable | mtext, mtext | msymb, msymb
  | output, output => true
  | _, _ => false
  end.

(** The method resolution order of a class (without [object]). *)
Definition mro (c : cls) : list cls :=
  match c with
  | Action => [Action]
  | FieldAction => [FieldAction; Action]
  | mgrib | mnetcdf | minput => [c; FieldAction; Action]
  | _ => [c; Action]
  end.

Definition issubclass (c c' : cls) : bool := existsb (cls_eqb c') (mro c).

(** [self.__class__.__name__] *)
Definition class_name (c : cls) : string :=
  match c with
  | Action => "Action" | mcont => "mcont" | mcoast => "mcoast"
  | mmap => "mmap" | FieldAction => "FieldAction" | mgrib => "mgrib"
  | mnetcdf => "mnetcdf" | minput => "minput" | mtable => "mtable"
  | mtext => "mtext" | msymb => "msymb" | output => "output"
  end.

(** What a name of the module's namespace is bound to: a directive class, or
    something else (a module, a function, another class). *)
Inductive gobj : Type :=
| GCls (c : cls)
| GOther (name : string).

Definition all_classes : list cls :=
  [Action; mcont; mcoast; mmap; FieldAction; mgrib; mnetcdf; minput;
   mtable; mtext; msymb; output].

Definition other_globals : list string :=
  ["os"; "logging"; "yaml"; "defaultdict"; "macro"; "temp_file"; "SVG";
   "Image"; "get_data_entry"; "annotation"; "BoundingBox"; "LOG"; "Layer";
   "MAGICS_KEYS"; "_apply"; "Driver";
   "__name__"; "__doc__"; "__package__"; "__loader__"; "__spec__";
   "__path__"; "__file__"; "__cached__"; "__builtins__"].

(** [globals().get(name)] *)
Definition globals (name : string) : option gobj :=
  match find (fun c => String.eqb name (class_name c)) all_classes with
  | Some c => Some (GCls c)
  | None =>
      if existsb (String.eqb name) other_globals then Some (GOther name)
      else None
  end.

(** ** The store *)

Definition loc := nat.

(** An [Action] instance: its class and [self.kwargs]. *)
Record instance : Type := Instance { class_of : cls; kwargs : dict }.

(** Warnings sent to [LOG]. *)
Inductive diagnostic : Type :=
| CannotEstablish (keys : list string)
| CouldBe (keys : list string) (first second : string).

Record world : Type := World { heap : list instance; log : list diagnostic }.

Inductive outcome (A : Type) : Type :=
| Ok (a : A) (w : world)
| Raise (e : exn)
| NoFuel.
Arguments Ok {A} a w.
Arguments Raise {A} e.
Arguments NoFuel {A}.

Definition M (A : Type) : Type := world -> outcome A.

Definition ret {A} (a : A) : M A := fun w => Ok a w.
Definition raise {A} (e : exn) : M A := fun _ => Raise e.
Definition bind {A B} (m : M A) (k : A -> M B) : M B :=
  fun w => match m w with
           | Ok a w' => k a w'
           | Raise e => Raise e
           | NoFuel => NoFuel
           end.

Notation "'let*' x ':=' m 'in' k" := (bind m (fun x => k))
  (at level 10, x pattern, m at level 100, k at level 200).
Notation "m ';;' k" := (bind m (fun _ => k))
  (at level 100, k at level 200, right associativity).

Definition lift {A} (r : exn + A) : M A :=
  match r with inr a => ret a | inl e => raise e end.

(** Calling the class: a new instance with the given keyword arguments. *)
Definition new (c : cls) (kw : dict) : M loc :=
  fun w => Ok (length (heap w)) (World (heap w ++ [Instance c kw]) (log w)).

Definition deref (r : loc) : M instance :=
  fun w => match heap w !! r with
           | Some o => Ok o w
           | None => Raise Unmodelled
           end.

Definition set_kwargs (r : loc) (kw : dict) : M unit :=
  fun w => match heap w !! r with
           | Some o => Ok tt (World (<[r := Instance (class_of o) kw]> (heap w))
                                    (log w))
           | None => Raise Unmodelled
           end.

Definition warning (d : diagnostic) : M unit :=
  fun w => Ok tt (World (heap w) (log w ++ [d])).

(** [for x in l: body x] *)
Fixpoint for_each {A} (l : list A) (body : A -> M unit) : M unit :=
  match l with
  | [] => ret tt
  | x :: l' => body x ;; for_each l' body
  end.

(** ** [Action] *)

(** [isinstance(self, action)]; the second argument must be a class. *)
Definition isinstance (self : loc) (action : option gobj) : M bool :=
  match action with
  | None => raise TypeError
  | Some (GOther _) => raise Unmodelled
  | Some (GCls c) => let* o := deref self in ret (issubclass (class_of o) c)
  end.

(** One turn of the loop of [Action.update]. *)
Definition update_item (self : loc) (kv : string * pyvalue) : M unit :=
  let '(k, v) := kv in
  match k with
  | EmptyString => raise IndexError       (* k[0] *)
  | String c name =>
      (if Ascii.eqb c "+"%char then
         let* o := deref self in set_kwargs self (dict_set name v (kwargs o))
       else ret tt) ;;
      (if Ascii.eqb c "-"%char then
         let* o := deref self in set_kwargs self (dict_pop name (kwargs o))
       else ret tt) ;;
      (if Ascii.eqb c "="%char then
         let* o := deref self in
         if negb (dict_in name (kwargs o))
         then set_kwargs self (dict_set name v (kwargs o))
         else ret tt
       else ret tt)
  end.

(** [Action.update(self, action, values)] *)
Definition update (self : loc) (action : option gobj) (values : dict)
  : M (option loc) :=
  let* b := isinstance self action in
  if b then for_each values (update_item self) ;; ret (Some self)
  else ret None.

(** [mmap.page_ratio(self)] *)
Definition page_ratio (self : loc) : M pyvalue :=
  let* o := deref self in
  match class_of o with
  | mmap =>
      let south := dict_get "subpage_lower_left_latitude" (VFloat (-90)) (kwargs o) in
      let west := dict_get "subpage_lower_left_longitude" (VInt (-180)) (kwargs o) in
      let north := dict_get "subpage_upper_right_latitude" (VFloat 90) (kwargs o) in
      let east := dict_get "subpage_upper_right_longitude" (VFloat 180) (kwargs o) in
      let* ns := lift (py_sub north south) in
      let* ew := lift (py_sub east west) in
      lift (py_truediv ns ew)
  | _ => raise AttributeError
  end.

(** The one [mcont] that [FieldAction.default_style] is bound to when the
    module is loaded; it is the first object of the store. *)
Definition FieldAction_default_style : loc := 0.

Definition module_world : world :=
  World [Instance mcont [("contour_automatic_setting", VStr "ecmwf");
                         ("legend", VBool false)]] [].

(** [cls.default_style], looked up along the MRO. *)
Definition default_style (c : cls) : option loc :=
  if issubclass c FieldAction then Some FieldAction_default_style else None.

(** ** [Layer] *)

Record Layer : Type := mkLayer { _data : option loc; _style : option loc }.

(** [Layer(data)] *)
Definition Layer__init__ (data : loc) : M Layer :=
  let* o := deref data in
  ret (mkLayer (Some data) (default_style (class_of o))).

(** Truth value of a slot: an [Action] has no [__bool__] or [__len__], so
    only [None] is false. *)
Definition truthy (x : option loc) : bool :=
  match x with Some _ => true | None => false end.

(** [Layer.add_action(self, actions)], returning the extended list. *)
Definition add_action (self : Layer) (actions : list (option loc))
  : list (option loc) :=
  let actions := if truthy (_data self) then actions ++ [_data self]
                 else actions in
  if truthy (_style self) then actions ++ [_style self] else actions.

(** [Layer.style(self, style)] *)
Definition Layer_style (self : Layer) (style : option loc) : Layer :=
  mkLayer (_data self) style.

(** [Layer.update(self, action, value)] *)
Definition Layer_update (self : Layer) (action : option gobj) (value : dict)
  : M (option loc) :=
  match _style self with
  | Some s => update s action value
  | None => raise AttributeError
  end.

(** What [_apply] may be given as [target]: an [Action] or a [Layer] (both
    have an [update] method), or [None]. *)
Inductive target : Type :=
| TAction (r : loc)
| TLayer (l : Layer).

(** [target.update(action, value)] *)
Definition target_update (t : option target) (action : option gobj)
    (value : dict) : M (option loc) :=
  match t with
  | None => raise AttributeError
  | Some (TAction r) => update r action value
  | Some (TLayer l) => Layer_update l action value
  end.

(** [action] called with the keyword arguments [kw].  Every directive
    class has the [__init__(self, **kwargs)] of [Action]: a keyword named
    [self] clashes with its first parameter and the call raises. *)
Definition call (action : option gobj) (kw : dict) : M (option loc) :=
  match action with
  | None => raise TypeError
  | Some (GOther _) => raise Unmodelled
  | Some (GCls c) =>
      if dict_in "self" kw then raise TypeError
      else let* r := new c kw in ret (Some r)
  end.

(** ** Helpers of [_apply] *)

(** [str.isalpha] on one character. *)
Definition isalpha (c : ascii) : bool :=
  let n := N_of_ascii c in
  ((65 <=? n) && (n <=? 90) || (97 <=? n) && (n <=? 122))%N.

(** ["{}".format(k)] *)
Definition format (k : pyvalue) : exn + string :=
  match k with
  | VStr s => inr s
  | VNone => inr "None"
  | VBool true => inr "True"
  | VBool false => inr "False"
  | VInt z => inr (NilEmpty.string_of_int (Z.to_int z))
  | _ => inl Unmodelled
  end.

(** [v.items()] *)
Definition items (v : pyvalue) : exn + dict :=
  match v with
  | VDict d => inr d
  | VOther _ => inl Unmodelled
  | _ => inl AttributeError
  end.

Fixpoint chars (s : string) : list pyvalue :=
  match s with
  | EmptyString => []
  | String c s' => VStr (String c EmptyString) :: chars s'
  end.

(** [iter(v)], as the list of what it yields. *)
Definition iterate (v : pyvalue) : exn + list pyvalue :=
  match v with
  | VList l => inr l
  | VDict d => inr (map VStr (dict_keys d))
  | VStr s => inr (chars s)
  | VOther _ => inl Unmodelled
  | _ => inl TypeError
  end.

(** The second loop of a grouping rewrite:
    [for k in ...: newvalue["-{}".format(k)] = None]. *)
Fixpoint add_removals (ks : list pyvalue) (newvalue : dict) : exn + dict :=
  match ks with
  | [] => inr newvalue
  | k :: ks' =>
      match format k with
      | inr s => add_removals ks' (dict_set ("-" ++ s) VNone newvalue)
      | inl e => inl e
      end
  end.

(** The rewrite of a grouped dictionary into prefixed keys; [adds] and
    [removals] are the two grouping keys (["set"] and ["clear"], or ["+"]
    and ["-"]). *)
Definition regroup (adds removals : string) (value : dict) : exn + dict :=
  match items (dict_get adds (VDict []) value) with
  | inl e => inl e
  | inr kvs =>
      let newvalue :=
        fold_left (fun nv kv => dict_set ("+" ++ fst kv) (snd kv) nv) kvs [] in
      match iterate (dict_get removals (VList []) value) with
      | inl e => inl e
      | inr ks => add_removals ks newvalue
      end
  end.

(** [scores[name] += 1] on a [defaultdict(int)] *)
Fixpoint scores_incr (name : string) (scores : list (string * nat))
  : list (string * nat) :=
  match scores with
  | [] => [(name, 1)]
  | (n, c) :: scores' =>
      if String.eqb name n then (n, S c) :: scores'
      else (n, c) :: scores_incr name scores'
  end.

(** [<] on the tuples [(v, k)] that are sorted. *)
Definition tuple_ltb (a b : nat * string) : bool :=
  (fst a <? fst b)%nat || ((fst a =? fst b)%nat && String.ltb (snd a) (snd b)).

Fixpoint insert_sorted (x : nat * string) (l : list (nat * string))
  : list (nat * string) :=
  match l with
  | [] => [x]
  | y :: l' => if tuple_ltb y x then y :: insert_sorted x l' else x :: l
  end.

(** [sorted(l)]: a stable sort. *)
Definition sorted (l : list (nat * string)) : list (nat * string) :=
  fold_right insert_sorted [] l.

(** [x[key]] for a string key *)
Definition subscript (x : pyvalue) (key : string) : exn + pyvalue :=
  match x with
  | VDict d => match dict_lookup key d with
               | Some v => inr v
               | None => inl KeyError
               end
  | VOther _ => inl Unmodelled
  | _ => inl TypeError
  end.

(** [list(x.keys())] *)
Definition keys (x : pyvalue) : exn + list string :=
  match x with
  | VDict d => inr (dict_keys d)
  | VOther _ => inl Unmodelled
  | _ => inl AttributeError
  end.

(** A value unpacked as keyword arguments must be a mapping. *)
Definition mapping (x : pyvalue) : exn + dict :=
  match x with
  | VDict d => inr d
  | VOther _ => inl Unmodelled
  | _ => inl TypeError
  end.

Section Magics.

(** [magics.yaml] as loaded: directive type name, then the parameters it
    accepts. *)
Variable magics : list (string * list string).

(** [get_data_entry(collection, name).data]; [None] when the call raises. *)
Variable get_data_entry : option string -> string -> option pyvalue.

(** [set.add] *)
Definition set_add (x : string) (s : list string) : list string :=
  if existsb (String.eqb x) s then s else s ++ [x].

(** [MAGICS_KEYS[param].add(name)] on a [defaultdict(set)] *)
Fixpoint index_add (param name : string) (idx : list (string * list string))
  : list (string * list string) :=
  match idx with
  | [] => [(param, [name])]
  | (p, names) :: idx' =>
      if String.eqb param p then (p, set_add name names) :: idx'
      else (p, names) :: index_add param name idx'
  end.

(** The index built on first use: parameter name to the set of types. *)
Definition MAGICS_KEYS : list (string * list string) :=
  fold_left
    (fun idx entry =>
       fold_left (fun idx param => index_add param (fst entry) idx)
                 (snd entry) idx)
    magics [].

(** [MAGICS_KEYS.get(param, [])] *)
Definition MAGICS_KEYS_get (param : string) : list string :=
  match find (fun e => String.eqb param (fst e)) MAGICS_KEYS with
  | Some e => snd e
  | None => []
  end.

(** The scoring loop of [_apply]: the scores and [special]. *)
Fixpoint score_keys (params : list string) (scores : list (string * nat))
    (special : nat) : exn + (list (string * nat) * nat) :=
  match params with
  | [] => inr (scores, special)
  | EmptyString :: _ => inl IndexError        (* param[0] *)
  | (String c rest as param) :: params' =>
      let special' := if negb (isalpha c) then S special else special in
      let param' := if negb (isalpha c) then rest else param in
      let scores' :=
        match MAGICS_KEYS_get param' with
        | [name] => scores_incr name scores
        | _ => scores
        end in
      score_keys params' scores' special'
  end.

(** [best = sorted((v, k) for k, v in scores.items())] *)
Definition best_of (scores : list (string * nat)) : list (nat * string) :=
  sorted (map (fun kv => (snd kv, fst kv)) scores).

(** The two warnings and the choice of the class, lines 223 to 236. *)
Definition choose_action (value : dict) (best : list (nat * string))
    (action : option gobj) : M (option gobj) :=
  (match best with
   | [] => warning (CannotEstablish (dict_keys value))
   | _ => ret tt
   end) ;;
  (match best with
   | b0 :: b1 :: _ =>
       if (fst b0 =? fst b1)%nat
       then warning (CouldBe (dict_keys value) (snd b0) (snd b1))
       else ret tt
   | _ => ret tt
   end) ;;
  match best with
  | b0 :: _ =>
      match globals (snd b0) with
      | Some g => ret (Some g)
      | None => raise KeyError
      end
  | [] => ret action
  end.

(** The part of [_apply] for a dictionary without grouping keys, lines 197
    to 253.  The two exceptions carry their message without the list of
    keys that the source formats into it. *)
Definition apply_flat (value : dict) (action : option gobj)
    (tgt : option target) : M (option loc) :=
  let* scored := lift (score_keys (dict_keys value) [] 0) in
  let scores := fst scored in
  let special := snd scored in
  let* action := choose_action value (best_of scores) action in
  if negb (special =? 0)%nat then
    if negb (special =? length value)%nat then
      raise (Exception "Cannot set some attributes and override others")
    else
      let* result := target_update tgt action value in
      match result with
      | Some r => ret (Some r)
      | None => raise (Exception "Cannot override attributes (no matching style)")
      end
  else call action value.

(** The part of [_apply] for a preset name, lines 255 to 266. *)
Definition apply_named (collection : option string) (name : string)
  : M (option loc) :=
  match get_data_entry collection name with
  | None => raise ExternalError
  | Some data =>
      let* magics := lift (subscript data "magics") in
      let* actions := lift (keys magics) in
      match actions with
      | [a] =>
          match globals a with
          | None => raise KeyError
          | Some action =>
              let* kw := lift (subscript magics a) in
              let* kw := lift (mapping kw) in
              call (Some action) kw
          end
      | _ => raise AssertionError
      end
  end.

(** [_apply], with its keyword-only arguments [value], [collection],
    [action], [default] and [target]; [fuel] bounds the depth of the
    recursion. *)
Fixpoint _apply_fuel (fuel : nat) (value : pyvalue) (collection : option string)
    (action : option gobj) (default : pyvalue) (tgt : option target)
  : M (option loc) :=
  match fuel with
  | O => fun _ => NoFuel
  | S fuel' =>
      match value with
      | VNone => ret None
      | VBool false => ret None
      | VBool true =>
          match default with
          | VBool true => raise AssertionError
          | _ => _apply_fuel fuel' default collection action VNone tgt
          end
      | VDict d =>
          if dict_in "set" d || dict_in "clear" d then
            let* newvalue := lift (regroup "set" "clear" d) in
            _apply_fuel fuel' (VDict newvalue) collection action default tgt
          else if dict_in "+" d || dict_in "-" d then
            let* newvalue := lift (regroup "+" "-" d) in
            _apply_fuel fuel' (VDict newvalue) collection action default tgt
          else apply_flat d action tgt
      | VStr s => apply_named collection s
      | _ => raise AssertionError
      end
  end.

(** A bound on the depth of the recursion of [_apply]: each recursive call
    on a rewritten dictionary goes one level down into the value. *)
Fixpoint rank (v : pyvalue) : nat :=
  match v with
  | VDict d =>
      S ((fix ranks (d : dict) : nat :=
            match d with
            | [] => 0
            | kv :: d' => Nat.max (rank (snd kv)) (ranks d')
            end) d)
  | VList _ | VStr _ => 1
  | _ => 0
  end.

Definition _apply (value : pyvalue) (collection : option string)
    (action : option gobj) (default : pyvalue) (tgt : option target)
  : M (option loc) :=
  _apply_fuel (rank value + rank default + 2) value collection action default
    tgt.

(** ** [Driver] *)

(** [climetlab.core.bbox.BoundingBox], as far as the driver reads it. *)
Record BoundingBox : Type :=
  mkBoundingBox { north : pyvalue; west : pyvalue; south : pyvalue;
                  east : pyvalue }.

(** [BoundingBox.add_margins(self, margins)]; [None] when it raises. *)
Variable add_margins : BoundingBox -> pyvalue -> option BoundingBox.

(** The attributes of a [Driver].  [_options] is what the options object
    answers: [options.provided(name)] is [dict_in name], [options(name,
    default)] is [dict_get name default]. *)
Record Driver : Type := mkDriver {
  _options : dict;
  _projection : option loc;
  _background : option loc;
  _foreground : option loc;
  _layers : list Layer;
  _width_cm : float;
  _height_cm : float;
  _page_ratio : pyvalue;
  _grid : option loc;
  _rivers : option loc;
  _cities : option loc;
  _borders : option loc;
  _legend : option loc;
  _title : option loc;
  _bounding_box : option BoundingBox;
  _tmp : list string
}.

Definition set_projection (self : Driver) (x : option loc) : Driver :=
  mkDriver (_options self) x (_background self) (_foreground self)
    (_layers self) (_width_cm self) (_height_cm self) (_page_ratio self)
    (_grid self) (_rivers self) (_cities self) (_borders self) (_legend self)
    (_title self) (_bounding_box self) (_tmp self).

Definition set_background (self : Driver) (x : option loc) : Driver :=
  mkDriver (_options self) (_projection self) x (_foreground self)
    (_layers self) (_width_cm self) (_height_cm self) (_page_ratio self)
    (_grid self) (_rivers self) (_cities self) (_borders self) (_legend self)
    (_title self) (_bounding_box self) (_tmp self).

Definition set_foreground (self : Driver) (x : option loc) : Driver :=
  mkDriver (_options self) (_projection self) (_background self) x
    (_layers self) (_width_cm self) (_height_cm self) (_page_ratio self)
    (_grid self) (_rivers self) (_cities self) (_borders self) (_legend self)
    (_title self) (_bounding_box self) (_tmp self).

Definition set_layers (self : Driver) (x : list Layer) : Driver :=
  mkDriver (_options self) (_projection self) (_background self)
    (_foreground self) x (_width_cm self) (_height_cm self) (_page_ratio self)
    (_grid self) (_rivers self) (_cities self) (_borders self) (_legend self)
    (_title self) (_bounding_box self) (_tmp self).

Definition set_page_ratio (self : Driver) (x : pyvalue) : Driver :=
  mkDriver (_options self) (_projection self) (_background self)
    (_foreground self) (_layers self) (_width_cm self) (_height_cm self) x
    (_grid self) (_rivers self) (_cities self) (_borders self) (_legend self)
    (_title self) (_bounding_box self) (_tmp self).

(** [Driver.background(self, background)] *)
Definition background (self : Driver) (background : pyvalue) : M Driver :=
  let* r := _apply background (Some "layers") None (VStr "default-background")
              (option_map TAction (_background self)) in
  ret (set_background self r).

(** [Driver.foreground(self, foreground)] *)
Definition foreground (self : Driver) (foreground : pyvalue) : M Driver :=
  let* r := _apply foreground (Some "layers") None (VStr "default-foreground")
              (option_map TAction (_foreground self)) in
  ret (set_foreground self r).

(** [Driver.projection(self, projection)] *)
Definition projection (self : Driver) (projection : pyvalue) : M Driver :=
  let* r := _apply projection (Some "projections") None (VBool true)
              (option_map TAction (_projection self)) in
  ret (set_projection self r).


(** [Driver._push_layer(self, data)] *)
Definition _push_layer (self : Driver) (data : loc) : M Driver :=
  let* l := Layer__init__ data in
  ret (set_layers self (_layers self ++ [l])).

(** [Driver.style(self, style)] *)
Definition style (self : Driver) (style : pyvalue) : M Driver :=
  match last (_layers self) with
  | Some last_layer =>
      let* r := _apply style (Some "styles") None (VBool true)
                  (Some (TLayer last_layer)) in
      ret (set_layers self
             (<[pred (length (_layers self)) := Layer_style last_layer r]>
                (_layers self)))
  | None => raise (Exception "No current data layer: cannot set style")
  end.

(** [Driver.plot_csv(self, path, variable)] *)
Definition plot_csv (self : Driver) (path variable : pyvalue) : M Driver :=
  let* data := new mtable [("table_filename", path);
                           ("table_latitude_variable", VStr "1");
                           ("table_longitude_variable", VStr "2");
                           ("table_value_variable", VStr "3");
                           ("table_header_row", VInt 0);
                           ("table_variable_identifier_type", VStr "index")] in
  let* self := _push_layer self data in
  style self (VStr "default-style-observations").

(** [Driver.show], lines 493 to 510: the default projection, the bounding
    box written into the projection, and the page ratio. *)
Definition show_extent (self : Driver) : M Driver :=
  let* self :=
    match _projection self with
    | None =>
        let* p := new mmap [("subpage_map_projection", VStr "cylindrical")] in
        ret (set_projection self (Some p))
    | Some _ => ret self
    end in
  let* self :=
    match _bounding_box self with
    | Some b =>
        match add_margins b (dict_get "margins" (VInt 0) (_options self)) with
        | None => raise ExternalError
        | Some bbox =>
            let* r := _apply
                        (VDict [("=subpage_upper_right_longitude", east bbox);
                                ("=subpage_upper_right_latitude", north bbox);
                                ("=subpage_lower_left_latitude", south bbox);
                                ("=subpage_lower_left_longitude", west bbox)])
                        None (Some (GCls mmap)) (VBool true)
                        (option_map TAction (_projection self)) in
            ret (set_projection self r)
        end
    | None => ret self
    end in
  match _projection self with
  | None => raise AttributeError
  | Some p => let* ratio := page_ratio p in ret (set_page_ratio self ratio)
  end.

(** [Driver.macro(self)] *)
Definition macro (self : Driver) : list loc :=
  let m := [_projection self; _background self] in
  let m := fold_left (fun m r => add_action r m) (_layers self) m in
  let m := m ++ [_rivers self; _borders self; _cities self; _foreground self;
                 _grid self; _legend self; _title self] in
  omap id m.

(** ** More of [Driver] *)

(** [int(x)], for the arguments whose conversion is exact. *)
Definition py_int (x : pyvalue) : exn + Z :=
  match x with
  | VInt z => inr z
  | VBool b => inr (if b then 1 else 0)%Z
  | VNone | VList _ | VDict _ => inl TypeError
  | _ => inl Unmodelled
  end.

(** The truth value of [x]. *)
Definition truth (x : pyvalue) : exn + bool :=
  match x with
  | VNone => inr false
  | VBool b => inr b
  | VInt z => inr (negb (z =? 0)%Z)
  | VFloat f => inr (negb (is_zero f))
  | VStr s => inr (negb (String.eqb s ""))
  | VList l => inr (match l with [] => false | _ => true end)
  | VDict d => inr (match d with [] => false | _ => true end)
  | VOther _ => inl Unmodelled
  end.

(** [Driver.plot_grib(self, path, offset)] *)
Definition plot_grib (self : Driver) (path offset : pyvalue) : M Driver :=
  let* position := lift (py_int offset) in
  let* data := new mgrib [("grib_input_file_name", path);
                          ("grib_file_address_mode", VStr "byte_offset");
                          ("grib_field_position", VInt position)] in
  _push_layer self data.

(** ["%s:%s" % (k, v)] for each item, the list comprehension of
    [plot_netcdf]. *)
Fixpoint dimension_settings (kvs : dict) : exn + list pyvalue :=
  match kvs with
  | [] => inr []
  | (k, v) :: kvs' =>
      match format v with
      | inl e => inl e
      | inr s =>
          match dimension_settings kvs' with
          | inl e => inl e
          | inr rest => inr (VStr (k ++ ":" ++ s) :: rest)
          end
      end
  end.

(** [Driver.plot_netcdf(self, path, variable, dimensions=None)] *)
Definition plot_netcdf (self : Driver) (path variable dimensions : pyvalue)
  : M Driver :=
  let dimensions := match dimensions with
                    | VNone => VDict []
                    | _ => dimensions
                    end in
  let* kvs := lift (items dimensions) in
  let* dimension_setting := lift (dimension_settings kvs) in
  let params :=
    match dimension_setting with
    | _ :: _ =>
        [("netcdf_filename", path);
         ("netcdf_value_variable", variable);
         ("netcdf_dimension_setting", VList dimension_setting);
         ("netcdf_dimension_setting_method", VStr "index")]
    | [] =>
        [("netcdf_filename", path); ("netcdf_value_variable", variable)]
    end in
  let* data := new mnetcdf params in
  _push_layer self data.

Definition set_grid (self : Driver) (x : option loc) : Driver :=
  mkDriver (_options self) (_projection self) (_background self)
    (_foreground self) (_layers self) (_width_cm self) (_height_cm self)
    (_page_ratio self) x (_rivers self) (_cities self) (_borders self)
    (_legend self) (_title self) (_bounding_box self) (_tmp self).

Definition set_rivers (self : Driver) (x : option loc) : Driver :=
  mkDriver (_options self) (_projection self) (_background self)
    (_foreground self) (_layers self) (_width_cm self) (_height_cm self)
    (_page_ratio self) (_grid self) x (_cities self) (_borders self)
    (_legend self) (_title self) (_bounding_box self) (_tmp self).

Definition set_cities (self : Driver) (x : option loc) : Driver :=
  mkDriver (_options self) (_projection self) (_background self)
    (_foreground self) (_layers self) (_width_cm self) (_height_cm self)
    (_page_ratio self) (_grid self) (_rivers self) x (_borders self)
    (_legend self) (_title self) (_bounding_box self) (_tmp self).

Definition set_borders (self : Driver) (x : option loc) : Driver :=
  mkDriver (_options self) (_projection self) (_background self)
    (_foreground self) (_layers self) (_width_cm self) (_height_cm self)
    (_page_ratio self) (_grid self) (_rivers self) (_cities self) x
    (_legend self) (_title self) (_bounding_box self) (_tmp self).

(** One of the four toggles of [show]: when the option is true, the slot
    takes a new [mcoast]. *)
Definition decoration (self : Driver) (name : string) (kw : dict)
    (set : Driver -> option loc -> Driver) : M Driver :=
  let* on := lift (truth (dict_get name (VBool false) (_options self))) in
  if on then let* r := new mcoast kw in ret (set self (Some r))
  else ret self.

(** [Driver.show], lines 465 to 484: grid, borders, rivers, cities. *)
Definition show_decorations (self : Driver) : M Driver :=
  let* self := decoration self "grid"
                 [("map_grid", VBool true); ("map_coastline", VBool false)]
                 set_grid in
  let* self := decoration self "borders"
                 [("map_boundaries", VBool true); ("map_grid", VBool false);
                  ("map_coastline", VBool false); ("map_label", VBool false)]
                 set_borders in
  let* self := decoration self "rivers"
                 [("map_rivers", VBool true); ("map_grid", VBool false);
                  ("map_coastline", VBool false); ("map_label", VBool false)]
                 set_rivers in
  decoration self "cities"
    [("map_cities", VBool true); ("map_label", VBool false);
     ("map_grid", VBool false); ("map_coastline", VBool false)]
    set_cities.

End Magics.

(** * Definitions used to state the properties *)

(** ** Operations of a patch *)

(** The operations of a patch, as the specification names them. *)
Inductive operation : Type :=
| add (key : string) (v : pyvalue)
| remove (key : string)
| setIfAbsent (key : string) (v : pyvalue).

(** What one operation does to a parameter bag, in the specification's
    words: [add] sets or overwrites, [remove] deletes if present,
    [setIfAbsent] sets only when the key is not already there. *)
Definition run_operation (kw : dict) (o : operation) : dict :=
  match o with
  | add k v => dict_set k v kw
  | remove k => dict_pop k kw
  | setIfAbsent k v => if dict_in k kw then kw else dict_set k v kw
  end.

(** The operation an item of the dictionary given to [update] stands for;
    a key with another first character stands for none. *)
Definition operation_of (kv : string * pyvalue) : option operation :=
  match fst kv with
  | EmptyString => None
  | String c k =>
      if Ascii.eqb c "+" then Some (add k (snd kv))
      else if Ascii.eqb c "-" then Some (remove k)
      else if Ascii.eqb c "=" then Some (setIfAbsent k (snd kv))
      else None
  end.

Definition patch (kw : dict) (values : dict) : dict :=
  fold_left run_operation (omap operation_of values) kw.


(** ** The assembly order *)

(** The slots of a driver in the order the specification fixes, empty slots
    included: projection, background, the data and style of each layer in
    insertion order, rivers, borders, cities, foreground, grid, legend,
    title. *)
Definition assembly_order (self : Driver) : list (option loc) :=
  [_projection self; _background self]
  ++ flat_map (fun l => [_data l; _style l]) (_layers self)
  ++ [_rivers self; _borders self; _cities self; _foreground self;
      _grid self; _legend self; _title self].

(** Dropping the null entries of a sequence, the order kept. *)
Definition omit_null (m : list (option loc)) : list loc := omap id m.

(** ** The extent of a projection *)

(** One bound of the extent read as a float: the parameter when it is set
    to a float, the full-world default when it is not set. *)
Definition extent (key : string) (dflt : float) (kw : dict) : option float :=
  match dict_lookup key kw with
  | None => Some dflt
  | Some (VFloat f) => Some f
  | Some _ => None
  end.

(** One bound of the extent when it is set to an integer. *)
Definition int_extent (key : string) (kw : dict) : option Z :=
  match dict_lookup key kw with
  | Some (VInt z) => Some z
  | _ => None
  end.

(** The projection of scenario D: north=90, south=-90, east=180,
    west=-180. *)
Definition full_world : dict :=
  [("subpage_upper_right_latitude", VFloat 90);
   ("subpage_lower_left_latitude", VFloat (-90));
   ("subpage_upper_right_longitude", VFloat 180);
   ("subpage_lower_left_longitude", VFloat (-180))].

(** The same extent given as integers. *)
Definition full_world_int : dict :=
  [("subpage_upper_right_latitude", VInt 90);
   ("subpage_lower_left_latitude", VInt (-90));
   ("subpage_upper_right_longitude", VInt 180);
   ("subpage_lower_left_longitude", VInt (-180))].

(** ** Fuel *)

(** The largest [rank] among the values of a dictionary. *)
Definition ranks (d : dict) : nat :=
  fold_right (fun kv m => Nat.max (rank (snd kv)) m) 0 d.

(** The fuel that [_apply_fuel] needs on a value. *)
Definition need (value default : pyvalue) : nat :=
  match value with
  | VBool true => S (S (rank default))
  | _ => S (rank value)
  end.

(** A computation that never runs out of fuel. *)
Definition total {A} (m : M A) : Prop := forall w, m w <> NoFuel.

(** ** The two grouping forms *)

(** The key of the [+]/[-] form that stands for a key of the
    [set]/[clear] form. *)
Definition prefix_key (k : string) : string :=
  if String.eqb k "set" then "+"
  else if String.eqb k "clear" then "-"
  else k.

(** The value in the [+]/[-] grouping form that is equivalent to one in
    the [set]/[clear] form: the same content under the other two keys. *)
Definition prefix_form (d : dict) : dict :=
  map (fun kv => (prefix_key (fst kv), snd kv)) d.

(** An item of a rewritten dictionary: an addition [+k] carrying the value
    of [k] among [adds], or a removal [-k] of an element of [removals],
    carrying [None]. *)
Definition rewritten_item (adds : dict) (removals : list pyvalue)
    (kv : string * pyvalue) : Prop :=
  (exists k : string,
      fst kv = String.append "+" k /\ In (k, snd kv) adds) \/
  (exists (x : pyvalue) (k : string),
      fst kv = String.append "-" k /\ In x removals /\ format x = inr k /\
      snd kv = VNone).

(** The additions of a rewritten dictionary: every entry of the first group
    under its key with [+] in front, in the order of the group. *)
Definition added_items (adds : dict) : dict :=
  map (fun kv => (String.append "+" (fst kv), snd kv)) adds.

(** The removals of a rewritten dictionary: every name of the second group
    with [-] in front, bound to [None], in the order of the group. *)
Definition removed_items (ks : list string) : dict :=
  map (fun k => (String.append "-" k, VNone)) ks.

(** ** Keys of a flat dictionary *)

(** A key carries a modifier prefix when its first character is not a
    letter, which is the test [_apply] makes; [+], [-] and [=] are such
    characters. *)
Definition prefixed (k : string) : bool :=
  match k with
  | String c _ => negb (isalpha c)
  | EmptyString => false
  end.

Fixpoint count_prefixed (keys : list string) : nat :=
  match keys with
  | [] => 0
  | k :: keys' => (if prefixed k then 1 else 0) + count_prefixed keys'
  end.

(** The parameter a key names: the key without its prefix. *)
Definition param_of (k : string) : string :=
  match k with
  | String c rest => if isalpha c then k else rest
  | EmptyString => EmptyString
  end.

(** A key votes for a type when the index maps its parameter to that type
    and no other. *)
Definition votes_for (magics : list (string * list string))
    (t k : string) : bool :=
  match MAGICS_KEYS_get magics (param_of k) with
  | [name] => String.eqb name t
  | _ => false
  end.

(** The score of a type: the number of keys that vote for it. *)
Fixpoint score (magics : list (string * list string)) (t : string)
    (keys : list string) : nat :=
  match keys with
  | [] => 0
  | k :: keys' => (if votes_for magics t k then 1 else 0)
                  + score magics t keys'
  end.

(** The score of a type as the specification words it: only the keys that
    carry no prefix are consulted. *)
Fixpoint unprefixed_score (magics : list (string * list string)) (t : string)
    (keys : list string) : nat :=
  match keys with
  | [] => 0
  | k :: keys' =>
      (if negb (prefixed k) && votes_for magics t k then 1 else 0)
      + unprefixed_score magics t keys'
  end.

(** A key carries one of the three modifier prefixes of the specification:
    [+], [-] or [=]. *)
Definition modifier_prefixed (k : string) : bool :=
  match k with
  | String c _ => Ascii.eqb c "+" || Ascii.eqb c "-" || Ascii.eqb c "="
  | EmptyString => false
  end.

(** [scores.get(t, 0)] *)
Definition scores_get (t : string) (scores : list (string * nat)) : nat :=
  match find (fun e => String.eqb t (fst e)) scores with
  | Some e => snd e
  | None => 0
  end.

(** The order of the ranking: (score, type name), ascending. *)
Definition tuple_lt (a b : nat * string) : Prop :=
  fst a < fst b \/ (fst a = fst b /\ String.ltb (snd a) (snd b) = true).

Definition tuple_le (a b : nat * string) : Prop := tuple_lt a b \/ a = b.

(** What the choice of the type comes to, given the ranking: the warnings
    logged and the class kept. *)
Definition inference (value : dict) (best : list (nat * string))
    (action : option gobj) (w : world) : outcome (option gobj) :=
  match best with
  | [] => Ok action (World (heap w) (log w ++ [CannotEstablish (dict_keys value)]))
  | b0 :: rest =>
      let tie :=
        match rest with
        | b1 :: _ => if (fst b0 =? fst b1)%nat
                     then [CouldBe (dict_keys value) (snd b0) (snd b1)]
                     else []
        | [] => []
        end in
      match globals (snd b0) with
      | Some g => Ok (Some g) (World (heap w) (log w ++ tie))
      | None => Raise KeyError
      end
  end.

(** ** The bounding box written into the projection *)

(** The four extent parameters of a projection. *)
Definition extent_names : list string :=
  ["subpage_upper_right_longitude"; "subpage_upper_right_latitude";
   "subpage_lower_left_latitude"; "subpage_lower_left_longitude"].

(** The dictionary [show] gives to [_apply] for a bounding box. *)
Definition extent_patch (bbox : BoundingBox) : dict :=
  [("=subpage_upper_right_longitude", east bbox);
   ("=subpage_upper_right_latitude", north bbox);
   ("=subpage_lower_left_latitude", south bbox);
   ("=subpage_lower_left_longitude", west bbox)].

(** The projection [show] creates when the driver has none. *)
Definition default_projection : instance :=
  Instance mmap [("subpage_map_projection", VStr "cylindrical")].

(** The projection [show] writes the box into, and the store it is in: the
    driver's own, or the default one, created at the end of the store. *)
Definition active_projection (self : Driver) (w : world) : loc * world :=
  match _projection self with
  | Some p => (p, w)
  | None => (length (heap w), World (heap w ++ [default_projection]) (log w))
  end.

(** The value the box has for an extent parameter. *)
Definition extent_of (bbox : BoundingBox) (name : string) : option pyvalue :=
  dict_lookup (String "=" name) (extent_patch bbox).

(** ** Presets *)

(** The directive a preset name stands for: the entry of the store has,
    under ["magics"], exactly one key, the name of a directive class, bound
    to the parameters, none of which is named [self]. *)
Definition preset_directive
    (get_data_entry : option string -> string -> option pyvalue)
    (collection : option string) (name : string) : option (cls * dict) :=
  match get_data_entry collection name with
  | Some (VDict data) =>
      match dict_lookup "magics" data with
      | Some (VDict [(a, VDict kw)]) =>
          match globals a with
          | Some (GCls c) => if dict_in "self" kw then None else Some (c, kw)
          | _ => None
          end
      | _ => None
      end
  | _ => None
  end.

(** The table directive of [plot_csv]. *)
Definition csv_table (path : pyvalue) : instance :=
  Instance mtable [("table_filename", path);
                   ("table_latitude_variable", VStr "1");
                   ("table_longitude_variable", VStr "2");
                   ("table_value_variable", VStr "3");
                   ("table_header_row", VInt 0);
                   ("table_variable_identifier_type", VStr "index")].

(** The attributes of a driver just constructed, the two slots apart. *)
Definition initial_driver (options : dict) (bg fg : option loc) : Driver :=
  mkDriver options None bg fg [] 10 10 (VFloat 1) None None None None None
    None None [].

(** ** The index under construction *)

(** [idx.get(param, [])] on an index under construction. *)
Definition index_get (param : string) (idx : list (string * list string))
  : list string :=
  match find (fun e => String.eqb param (fst e)) idx with
  | Some e => snd e
  | None => []
  end.


(** ** Concrete vocabularies, stores and drivers, for the instances *)

(** A vocabulary with two types, each with a parameter of its own and one
    they share. *)
Definition two_types : list (string * list string) :=
  [("mcont", ["contour"; "legend"]); ("msymb", ["symbol_type"; "legend"])].

(** A vocabulary in which the extent parameters belong to [mmap] alone. *)
Definition extent_vocabulary : list (string * list string) :=
  [("mmap", "subpage_map_projection" :: extent_names)].

(** A driver whose projection already has an eastern bound, 50, and whose
    accumulated box is north 20, west -10, south -20, east 10. *)
Definition bounded_driver : Driver :=
  mkDriver [] (Some 1) None None [] 10 10 (VFloat 1) None None None None None
    None (Some (mkBoundingBox (VInt 20) (VInt (-10)) (VInt (-20)) (VInt 10)))
    [].

(** A driver without projection, with the same accumulated box. *)
Definition boxed_driver : Driver :=
  mkDriver [] None None None [] 10 10 (VFloat 1) None None None None None
    None (Some (mkBoundingBox (VInt 20) (VInt (-10)) (VInt (-20)) (VInt 10)))
    [].

Definition bounded_world : world :=
  World (heap module_world ++
         [Instance mmap [("subpage_upper_right_longitude", VInt 50)]]) [].

(** A preset store with the three presets the driver names. *)
Definition three_presets (collection : option string) (name : string)
  : option pyvalue :=
  if String.eqb name "default-background" then
    Some (VDict [("magics",
                  VDict [("mcoast", VDict [("map_coastline", VBool true)])])])
  else if String.eqb name "default-foreground" then
    Some (VDict [("magics",
                  VDict [("mcoast", VDict [("map_grid", VBool false)])])])
  else if String.eqb name "default-style-observations" then
    Some (VDict [("magics",
                  VDict [("msymb", VDict [("symbol_type", VStr "marker")])])])
  else None.


(** ** What a call leaves of the store *)

(** The instance a target patches: the action itself, or the style of the
    layer. *)
Definition target_style (t : option target) : option loc :=
  match t with
  | Some (TAction r) => Some r
  | Some (TLayer l) => _style l
  | None => None
  end.

(** [w'] comes after [w]: every instance of [w] is still there with its
    class, and with its parameters unless it is [touched]; instances may
    have been added; warnings may have been logged. *)
Definition extends (touched : option loc) (w w' : world) : Prop :=
  length (heap w) <= length (heap w') /\
  (forall i o, heap w !! i = Some o ->
     exists o', heap w' !! i = Some o' /\ class_of o' = class_of o /\
                (touched <> Some i -> o' = o)) /\
  (exists lg, log w' = log w ++ lg).

(** A computation whose results come after the store it started from. *)
Definition preserves {A} (touched : option loc) (m : M A) : Prop :=
  forall w a w', m w = Ok a w' -> extends touched w w'.


(** A computation that creates no instance. *)
Definition allocates_nothing {A} (m : M A) : Prop :=
  forall w a w', m w = Ok a w' -> length (heap w') = length (heap w).

(** A vocabulary in which [mcont] has two parameters of its own and [msymb]
    one. *)
Definition three_parameters : list (string * list string) :=
  [("mcont", ["contour"; "contour_level_count"]); ("msymb", ["symbol_type"])].

(** The store of the module with a [mgrib] and a [mnetcdf] in it. *)
Definition two_fields : world :=
  World (heap module_world ++
         [Instance mgrib [("grib_input_file_name", VStr "a.grib")];
          Instance mnetcdf [("netcdf_filename", VStr "b.nc")]]) [].

(** A driver whose options turn the four decorations on. *)
Definition decorated_driver : Driver :=
  initial_driver [("grid", VBool true); ("borders", VBool true);
                  ("rivers", VBool true); ("cities", VBool true)]
    None None.

(** * Properties *)

(** ** The store *)

Lemma world_eta w : World (heap w) (log w) = w.
Proof. by destruct w. Qed.

Lemma instance_eta o : Instance (class_of o) (kwargs o) = o.
Proof. by destruct o. Qed.

(** ** [Action.update] *)

Lemma update_item_spec self c kw kv w :
  heap w !! self = Some (Instance c kw) ->
  fst kv <> "" ->
  update_item self kv w =
    Ok tt (World (<[self := Instance c (patch kw [kv])]> (heap w)) (log w)).
Proof.
  intros Hself Hkey. destruct kv as [k v]; simpl in Hkey.
  destruct k as [|ch name]; [done|].
  unfold update_item, patch, operation_of; simpl fst; simpl snd.
  assert (Hid : forall h, h !! self = Some (Instance c kw) ->
                          <[self := Instance c kw]> h = h)
    by (intros h Hh; by apply list_insert_id).
  destruct (Ascii.eqb_spec ch "+") as [->|Hp].
  { unfold bind, deref, set_kwargs, ret; simpl. rewrite Hself; simpl.
    rewrite Hself. simpl. done. }
  destruct (Ascii.eqb_spec ch "-") as [->|Hm].
  { unfold bind, deref, set_kwargs, ret; simpl. rewrite Hself; simpl.
    rewrite Hself. simpl. done. }
  destruct (Ascii.eqb_spec ch "=") as [->|He].
  { unfold bind, deref, set_kwargs, ret; simpl. rewrite Hself; simpl.
    destruct (dict_in name kw); simpl.
    - by rewrite Hid, world_eta.
    - by rewrite Hself. }
  unfold bind, ret; simpl.
  apply Ascii.eqb_neq in Hp, Hm, He. rewrite Hp, Hm, He; simpl.
  by rewrite Hid, world_eta.
Qed.

Lemma update_loop_spec self c values : forall kw w,
  heap w !! self = Some (Instance c kw) ->
  Forall (fun kv => fst kv <> "") values ->
  for_each values (update_item self) w =
    Ok tt (World (<[self := Instance c (patch kw values)]> (heap w)) (log w)).
Proof.
  induction values as [|kv values IH]; intros kw w Hself Hkeys.
  - unfold patch; simpl. rewrite list_insert_id by done. by rewrite world_eta.
  - inversion Hkeys as [|? ? Hk Hrest]; subst.
    simpl. unfold bind. rewrite (update_item_spec self c kw kv w Hself Hk).
    rewrite (IH (patch kw [kv])); [|simpl|done].
    + simpl. rewrite list_insert_insert_eq.
      unfold patch. simpl. by destruct (operation_of kv).
    + apply list_lookup_insert_eq. by eapply lookup_lt_Some.
Qed.

Lemma update_mismatch self o c values w :
  heap w !! self = Some o ->
  issubclass (class_of o) c = false ->
  update self (Some (GCls c)) values w = Ok None w.
Proof.
  intros Hself Hsub. unfold update, isinstance, bind, deref, ret.
  by rewrite Hself, Hsub.
Qed.

Lemma update_match self o c values w :
  heap w !! self = Some o ->
  issubclass (class_of o) c = true ->
  Forall (fun kv => fst kv <> "") values ->
  update self (Some (GCls c)) values w =
    Ok (Some self)
       (World (<[self := Instance (class_of o) (patch (kwargs o) values)]>
                 (heap w))
              (log w)).
Proof.
  intros Hself Hsub Hkeys. unfold update, isinstance, bind, deref, ret.
  rewrite Hself, Hsub.
  rewrite (update_loop_spec self (class_of o) values (kwargs o)); try done.
  by rewrite instance_eta.
Qed.

(** C5.  [Action.update] on a directive whose class is not the target class
    returns [None] and leaves the store, hence the parameter bag, as it was;
    when the class matches it runs the operations the keys stand for, in
    the order of the dictionary ([add] sets, [remove] deletes if present,
    [setIfAbsent] sets only an absent key), and returns the very location
    it was called on, whose class is unchanged. *)
Theorem update_patches_matching_type self o c values w :
  heap w !! self = Some o ->
  (issubclass (class_of o) c = false ->
   update self (Some (GCls c)) values w = Ok None w) /\
  (issubclass (class_of o) c = true ->
   Forall (fun kv => fst kv <> "") values ->
   update self (Some (GCls c)) values w =
     Ok (Some self)
        (World (<[self := Instance (class_of o) (patch (kwargs o) values)]>
                  (heap w))
               (log w))).
Proof.
  intros Hself. split; intros Hsub.
  - by apply (update_mismatch self o).
  - intros Hkeys. by apply update_match.
Qed.

Lemma update_patches_matching_type_witness :
  update 0 (Some (GCls mmap)) [("+legend", VBool true)] module_world
    = Ok None module_world /\
  update 0 (Some (GCls Action))
    [("+colour", VStr "red"); ("-legend", VNone);
     ("=colour", VStr "blue"); ("=width", VInt 2)] module_world
    = Ok (Some 0)
         (World [Instance mcont [("contour_automatic_setting", VStr "ecmwf");
                                 ("colour", VStr "red"); ("width", VInt 2)]]
                []).
Proof.
  pose (o := Instance mcont [("contour_automatic_setting", VStr "ecmwf");
                             ("legend", VBool false)]).
  split.
  - exact (proj1 (update_patches_matching_type 0 o mmap _ module_world
                    eq_refl) eq_refl).
  - refine (proj2 (update_patches_matching_type 0 o Action
                     [("+colour", VStr "red"); ("-legend", VNone);
                      ("=colour", VStr "blue"); ("=width", VInt 2)]
                     module_world eq_refl) eq_refl _).
    repeat constructor; discriminate.
Defined.

(** ** [Driver.macro] *)

Lemma omit_null_app m1 m2 : omit_null (m1 ++ m2) = omit_null m1 ++ omit_null m2.
Proof. apply omap_app. Qed.

Lemma add_action_omit_null l m :
  omit_null (add_action l m) = omit_null m ++ omit_null [_data l; _style l].
Proof.
  unfold add_action.
  destruct (_data l) as [d|], (_style l) as [s|]; simpl;
    rewrite ?omit_null_app; simpl; rewrite <- ?app_assoc, ?app_nil_r; done.
Qed.

Lemma layers_omit_null ls : forall m,
  omit_null (fold_left (fun m r => add_action r m) ls m)
  = omit_null m ++ omit_null (flat_map (fun l => [_data l; _style l]) ls).
Proof.
  induction ls as [|l ls IH]; intros m.
  - simpl. by rewrite app_nil_r.
  - cbn [fold_left flat_map].
    by rewrite IH, add_action_omit_null, <- app_assoc, <- omit_null_app.
Qed.

(** C2.  For every driver, [macro] is the assembly order (projection,
    background, data then style of each layer in insertion order, rivers,
    borders, cities, foreground, grid, legend, title) with the null entries
    omitted and nothing else moved; it is a function of the driver alone. *)
Theorem macro_assembly_order (self : Driver) :
  macro self = omit_null (assembly_order self).
Proof.
  unfold macro, assembly_order.
  change (omap id) with omit_null.
  rewrite !omit_null_app, layers_omit_null. by rewrite <- app_assoc.
Qed.

(** ** [mmap.page_ratio] *)

Lemma float_of_int_west : float_of_int (-180) = inr (-180)%float.
Proof. vm_compute. reflexivity. Qed.

Lemma half_is_not_one : VFloat 0.5 <> VFloat 1.
Proof.
  intros H.
  pose (is_one := fun v => match v with
                           | VFloat x => PrimFloat.eqb x 1
                           | _ => true
                           end).
  assert (Heq : is_one (VFloat 0.5) = is_one (VFloat 1)) by (by rewrite H).
  vm_compute in Heq. discriminate.
Qed.

Lemma Ok_inj {A} (a b : A) (w w' : world) : Ok a w = Ok b w' -> a = b.
Proof. intros H. by injection H. Qed.

(** C8, the claim as stated fails: on the projection of scenario D (north
    90, south -90, east 180, west -180) the page ratio is 0.5, not 1.0. *)
Lemma page_ratio_full_world_is_not_one :
  page_ratio 0 (World [Instance mmap full_world] []) =
    Ok (VFloat 0.5) (World [Instance mmap full_world] []) /\
  page_ratio 0 (World [Instance mmap full_world] []) <>
    Ok (VFloat 1) (World [Instance mmap full_world] []).
Proof.
  assert (H : page_ratio 0 (World [Instance mmap full_world] []) =
              Ok (VFloat 0.5) (World [Instance mmap full_world] []))
    by (vm_compute; reflexivity).
  split; [exact H|]. rewrite H. intros Heq.
  exact (half_is_not_one (Ok_inj _ _ _ _ Heq)).
Qed.

(** C8, amended.  On a projection of class [mmap] the page ratio is
    (north - south) / (east - west), with Python's subtraction and true
    division, over the four extent parameters, each replaced when it is not
    set by its default (90.0, -90.0, 180.0 and the integer -180), and it
    raises what these operations raise; on float extents (set or by
    default) whose east and west differ this is the float
    (n - s) / (e - we), on integer extents it is the correctly rounded
    quotient of the integers n - s and e - we; on the full-world extent, as
    floats, as integers or by default, it is 0.5. *)
Theorem page_ratio_of_extent p kw w :
  heap w !! p = Some (Instance mmap kw) ->
  page_ratio p w =
    match py_sub (dict_get "subpage_upper_right_latitude" (VFloat 90) kw)
                 (dict_get "subpage_lower_left_latitude" (VFloat (-90)) kw)
    with
    | inl e => Raise e
    | inr ns =>
        match py_sub (dict_get "subpage_upper_right_longitude" (VFloat 180) kw)
                     (dict_get "subpage_lower_left_longitude" (VInt (-180)) kw)
        with
        | inl e => Raise e
        | inr ew =>
            match py_truediv ns ew with
            | inl e => Raise e
            | inr ratio => Ok ratio w
            end
        end
    end /\
  (forall n s e we,
     extent "subpage_upper_right_latitude" 90 kw = Some n ->
     extent "subpage_lower_left_latitude" (-90) kw = Some s ->
     extent "subpage_upper_right_longitude" 180 kw = Some e ->
     extent "subpage_lower_left_longitude" (-180) kw = Some we ->
     is_zero (e - we) = false ->
     page_ratio p w = Ok (VFloat ((n - s) / (e - we))) w) /\
  (forall n s e we : Z,
     int_extent "subpage_upper_right_latitude" kw = Some n ->
     int_extent "subpage_lower_left_latitude" kw = Some s ->
     int_extent "subpage_upper_right_longitude" kw = Some e ->
     int_extent "subpage_lower_left_longitude" kw = Some we ->
     page_ratio p w =
       match int_true_divide (n - s) (e - we) with
       | inr f => Ok (VFloat f) w
       | inl err => Raise err
       end) /\
  page_ratio 0 (World [Instance mmap full_world] []) =
    Ok (VFloat 0.5) (World [Instance mmap full_world] []) /\
  page_ratio 0 (World [Instance mmap full_world_int] []) =
    Ok (VFloat 0.5) (World [Instance mmap full_world_int] []) /\
  page_ratio 0 (World [Instance mmap []] []) =
    Ok (VFloat 0.5) (World [Instance mmap []] []).
Proof.
  intros Hp.
  assert (Hgen : page_ratio p w =
    match py_sub (dict_get "subpage_upper_right_latitude" (VFloat 90) kw)
                 (dict_get "subpage_lower_left_latitude" (VFloat (-90)) kw)
    with
    | inl e => Raise e
    | inr ns =>
        match py_sub (dict_get "subpage_upper_right_longitude" (VFloat 180) kw)
                     (dict_get "subpage_lower_left_longitude" (VInt (-180)) kw)
        with
        | inl e => Raise e
        | inr ew =>
            match py_truediv ns ew with
            | inl e => Raise e
            | inr ratio => Ok ratio w
            end
        end
    end).
  { unfold page_ratio, bind at 1, deref. rewrite Hp. cbn [class_of kwargs].
    unfold bind, lift, ret, raise.
    destruct (py_sub _ _) as [|ns]; [done|].
    destruct (py_sub _ _) as [|ew]; [done|].
    by destruct (py_truediv ns ew). }
  split; [exact Hgen|].
  split; [|split; [|repeat split; vm_compute; reflexivity]].
  - intros n s e we Hn Hs He Hw Hz. rewrite Hgen.
    unfold extent in Hn, Hs, He, Hw. unfold dict_get.
    destruct (dict_lookup "subpage_upper_right_latitude" kw) as [[]|];
      try discriminate; injection Hn as <-;
    destruct (dict_lookup "subpage_lower_left_latitude" kw) as [[]|];
      try discriminate; injection Hs as <-;
    destruct (dict_lookup "subpage_upper_right_longitude" kw) as [[]|];
      try discriminate; injection He as <-;
    (destruct (dict_lookup "subpage_lower_left_longitude" kw) as [[]|];
      try discriminate; injection Hw as <-);
    cbn [py_sub as_number]; rewrite ?float_of_int_west;
    cbn [py_truediv as_number]; rewrite Hz; reflexivity.
  - intros n s e we Hn Hs He Hw. rewrite Hgen.
    unfold int_extent in Hn, Hs, He, Hw. unfold dict_get.
    destruct (dict_lookup "subpage_upper_right_latitude" kw) as [[]|];
      try discriminate; injection Hn as <-.
    destruct (dict_lookup "subpage_lower_left_latitude" kw) as [[]|];
      try discriminate; injection Hs as <-.
    destruct (dict_lookup "subpage_upper_right_longitude" kw) as [[]|];
      try discriminate; injection He as <-.
    destruct (dict_lookup "subpage_lower_left_longitude" kw) as [[]|];
      try discriminate; injection Hw as <-.
    cbn [py_sub as_number py_truediv].
    by destruct (int_true_divide _ _).
Qed.

Lemma page_ratio_of_extent_witness :
  page_ratio 0 (World [Instance mmap
                         [("subpage_upper_right_latitude", VFloat 60);
                          ("subpage_lower_left_latitude", VFloat 30)]] []) =
    Ok (VFloat ((60 - 30) / (180 - -180)))
       (World [Instance mmap
                 [("subpage_upper_right_latitude", VFloat 60);
                  ("subpage_lower_left_latitude", VFloat 30)]] []).
Proof.
  exact (proj1 (proj2 (page_ratio_of_extent 0
                  [("subpage_upper_right_latitude", VFloat 60);
                   ("subpage_lower_left_latitude", VFloat 30)]
                  (World [Instance mmap
                            [("subpage_upper_right_latitude", VFloat 60);
                             ("subpage_lower_left_latitude", VFloat 30)]] [])
                  eq_refl))
                  60%float 30%float 180%float (-180)%float
                  eq_refl eq_refl eq_refl eq_refl eq_refl).
Defined.

(** ** Computations that do not recurse *)

Lemma total_ret {A} (a : A) : total (ret a).
Proof. by intros w. Qed.

Lemma total_raise {A} e : total (@raise A e).
Proof. by intros w. Qed.

Lemma total_lift {A} (r : exn + A) : total (lift r).
Proof. destruct r; [apply total_raise | apply total_ret]. Qed.

Lemma total_bind {A B} (m : M A) (k : A -> M B) :
  total m -> (forall a, total (k a)) -> total (bind m k).
Proof.
  intros Hm Hk w. unfold bind. specialize (Hm w).
  destruct (m w); [apply Hk | done | done].
Qed.

Lemma total_new c kw : total (new c kw).
Proof. by intros w. Qed.

Lemma total_deref r : total (deref r).
Proof. intros w. unfold deref. by destruct (heap w !! r). Qed.

Lemma total_set_kwargs r kw : total (set_kwargs r kw).
Proof. intros w. unfold set_kwargs. by destruct (heap w !! r). Qed.

Lemma total_warning d : total (warning d).
Proof. by intros w. Qed.

Lemma total_for_each {A} (l : list A) body :
  (forall x, total (body x)) -> total (for_each l body).
Proof.
  intros Hb. induction l; simpl; [apply total_ret|].
  apply total_bind; auto.
Qed.

Create HintDb total.

#[local] Hint Resolve total_ret total_raise total_lift total_new total_deref
  total_set_kwargs total_warning : total.

Ltac total_step :=
  first [ solve [auto with total]
        | apply total_bind; [|intros ?]
        | apply total_for_each; intros ?
        | match goal with
          | |- total (if ?b then _ else _) => destruct b
          | |- total (match ?x with _ => _ end) => destruct x
          end ].

Lemma total_update_item self kv : total (update_item self kv).
Proof.
  destruct kv as [[|c name] v]; simpl; repeat total_step.
Qed.

Lemma total_isinstance self action : total (isinstance self action).
Proof. destruct action as [[]|]; simpl; repeat total_step. Qed.

Lemma total_update self action values : total (update self action values).
Proof.
  unfold update. apply total_bind; [apply total_isinstance|].
  intros []; [|auto with total].
  apply total_bind; [|auto with total].
  apply total_for_each, total_update_item.
Qed.

Lemma total_target_update t action values :
  total (target_update t action values).
Proof.
  destruct t as [[r|l]|]; simpl; auto using total_update with total.
  unfold Layer_update. destruct (_style l); auto using total_update with total.
Qed.

Lemma total_call action kw : total (call action kw).
Proof. destruct action as [[]|]; simpl; repeat total_step. Qed.

(** ** The rank of a rewritten dictionary *)

Lemma rank_dict d : rank (VDict d) = S (ranks d).
Proof.
  reflexivity.
Qed.

Lemma dict_in_lookup k d : dict_in k d = true <-> is_Some (dict_lookup k d).
Proof.
  induction d as [|[k' v] d IH]; simpl.
  - split; intros H; [done | by destruct H].
  - destruct (String.eqb k k'); [|done]. split; intros H; [by eexists | done].
Qed.

Lemma dict_in_false k d : dict_in k d = false <-> dict_lookup k d = None.
Proof.
  induction d as [|[k' v] d IH]; simpl; [done|].
  destruct (String.eqb k k'); [|done]. split; discriminate.
Qed.

Lemma ranks_lookup k d v : dict_lookup k d = Some v -> rank v <= ranks d.
Proof.
  induction d as [|[k' v'] d IH]; simpl; [done|].
  destruct (String.eqb k k').
  - intros [= ->]. lia.
  - intros H. specialize (IH H). lia.
Qed.

Lemma ranks_dict_set k v d :
  ranks (dict_set k v d) <= Nat.max (rank v) (ranks d).
Proof.
  induction d as [|[k' v'] d IH]; simpl; [lia|].
  destruct (String.eqb k k'); simpl; lia.
Qed.

Lemma ranks_additions kvs : forall acc,
  ranks (fold_left (fun nv kv => dict_set ("+" ++ fst kv) (snd kv) nv) kvs acc)
  <= Nat.max (ranks kvs) (ranks acc).
Proof.
  induction kvs as [|kv kvs IH]; intros acc; simpl; [lia|].
  specialize (IH (dict_set ("+" ++ fst kv) (snd kv) acc)).
  pose proof (ranks_dict_set ("+" ++ fst kv) (snd kv) acc). lia.
Qed.

Lemma ranks_removals ks : forall nv nv',
  add_removals ks nv = inr nv' -> ranks nv' <= ranks nv.
Proof.
  induction ks as [|k ks IH]; intros nv nv'; simpl.
  - by intros [= ->].
  - destruct (format k) as [e|s]; [done|]. intros H.
    specialize (IH _ _ H).
    pose proof (ranks_dict_set ("-" ++ s) VNone nv). simpl in *. lia.
Qed.

Lemma rank_regroup adds removals d nv :
  dict_in adds d || dict_in removals d = true ->
  regroup adds removals d = inr nv ->
  rank (VDict nv) < rank (VDict d).
Proof.
  intros Hin. rewrite !rank_dict. unfold regroup, dict_get.
  destruct (dict_lookup adds d) as [a|] eqn:Ha.
  - apply ranks_lookup in Ha.
    destruct a; cbn [items]; try discriminate.
    destruct (iterate _) as [e|ks]; [done|]. intros Hnv.
    apply ranks_removals in Hnv. rewrite rank_dict in Ha.
    pose proof (ranks_additions d0 []) as Hadd.
    cbn [ranks fold_right] in Hadd. lia.
  - cbn [items]. apply dict_in_false in Ha. rewrite Ha in Hin.
    cbn [orb] in Hin.
    apply dict_in_lookup in Hin as [c Hc]. rewrite Hc.
    intros Hnv. apply ranks_lookup in Hc.
    assert (1 <= rank c).
    { destruct c; cbn [iterate] in Hnv; try discriminate;
        rewrite ?rank_dict; cbn [rank]; lia. }
    destruct (iterate c) as [e|ks]; [done|].
    apply ranks_removals in Hnv. cbn [fold_left ranks fold_right] in Hnv. lia.
Qed.

Section MagicsFacts.

Variable magics : list (string * list string).
Variable get_data_entry : option string -> string -> option pyvalue.
Variable add_margins : BoundingBox -> pyvalue -> option BoundingBox.

(** The functions at the vocabulary and the preset store of the section;
    [resolve] is the specification's name of [_apply]. *)
#[local] Abbreviation flat := (apply_flat magics).
#[local] Abbreviation named := (apply_named get_data_entry).
#[local] Abbreviation resolve_fuel := (_apply_fuel magics get_data_entry).
#[local] Abbreviation resolve := (_apply magics get_data_entry).

Lemma total_choose_action value best action :
  total (choose_action value best action).
Proof. unfold choose_action. repeat total_step. Qed.

Lemma total_apply_flat value action tgt : total (flat value action tgt).
Proof.
  unfold apply_flat.
  apply total_bind; [auto with total|]. intros scored.
  apply total_bind; [apply total_choose_action|]. intros act.
  destruct (negb _); [|apply total_call].
  destruct (negb _); [auto with total|].
  apply total_bind; [apply total_target_update|]. intros [r|]; auto with total.
Qed.

Lemma total_apply_named collection name : total (named collection name).
Proof.
  unfold apply_named. destruct (get_data_entry _ _); [|auto with total].
  apply total_bind; [auto with total|]. intros m.
  apply total_bind; [auto with total|]. intros [|a [|]]; auto with total.
  destruct (globals a); [|auto with total].
  apply total_bind; [auto with total|]. intros kw.
  apply total_bind; [auto with total|]. intros kw'. apply total_call.
Qed.

(** The recursive call on a rewritten dictionary, as [_apply_fuel] makes
    it. *)
Lemma bind_lift_regroup {A} (r : exn + dict) (k : dict -> M A) w :
  bind (lift r) k w =
    match r with inr nv => k nv w | inl e => Raise e end.
Proof. by destruct r. Qed.

(** More fuel does not change a result. *)
Lemma _apply_fuel_mono n : forall m value collection action default tgt w,
  n <= m ->
  resolve_fuel n value collection action default tgt w <> NoFuel ->
  resolve_fuel m value collection action default tgt w
  = resolve_fuel n value collection action default tgt w.
Proof.
  induction n as [|n IH]; intros m value collection action default tgt w Hle;
    [done|].
  destruct m as [|m]; [lia|]. assert (n <= m) by lia.
  cbn [_apply_fuel].
  destruct value as [| [] | | | | |d|]; try done.
  - destruct default as [| [] | | | | | |]; try done; by apply IH.
  - destruct (_ || _).
    { rewrite !bind_lift_regroup. destruct (regroup _ _ _); [done|].
      by apply IH. }
    destruct (_ || _); [|done].
    rewrite !bind_lift_regroup. destruct (regroup _ _ _); [done|]. by apply IH.
Qed.

(** With the fuel of [need] the recursion ends. *)
Lemma _apply_fuel_enough n : forall value collection action default tgt,
  need value default <= n ->
  total (resolve_fuel n value collection action default tgt).
Proof.
  induction n as [|n IH]; intros value collection action default tgt Hn.
  { destruct value as [| [] | | | | | |]; simpl in Hn; lia. }
  cbn [_apply_fuel].
  destruct value as [| [] | | | | s |d|]; auto with total.
  - destruct default as [| [] | | | | | |]; auto with total;
      apply IH; cbn [need] in *; lia.
  - apply total_apply_named.
  - cbn [need] in Hn.
    destruct (dict_in "set" d || dict_in "clear" d) eqn:Hset.
    { intros w. rewrite bind_lift_regroup.
      destruct (regroup _ _ _) as [|nv] eqn:Hnv; [done|].
      apply IH. pose proof (rank_regroup _ _ _ _ Hset Hnv). cbn [need]. lia. }
    destruct (dict_in "+" d || dict_in "-" d) eqn:Hplus;
      [|apply total_apply_flat].
    intros w. rewrite bind_lift_regroup.
    destruct (regroup _ _ _) as [|nv] eqn:Hnv; [done|].
    apply IH. pose proof (rank_regroup _ _ _ _ Hplus Hnv). cbn [need]. lia.
Qed.

Lemma need_le value default : need value default <= rank value + rank default + 2.
Proof. destruct value as [| [] | | | | | |]; cbn [need]; simpl; lia. Qed.

(** [_apply] is [_apply_fuel] at any sufficient fuel. *)
Lemma _apply_at_fuel n value collection action default tgt w :
  need value default <= n ->
  resolve value collection action default tgt w
  = resolve_fuel n value collection action default tgt w.
Proof.
  intros Hn. unfold _apply.
  pose proof (need_le value default) as Hle.
  destruct (Nat.le_ge_cases n (rank value + rank default + 2)).
  - apply _apply_fuel_mono; [done|]. by apply _apply_fuel_enough.
  - symmetry. apply _apply_fuel_mono; [done|]. by apply _apply_fuel_enough.
Qed.

(** [_apply] always comes to an end. *)
Lemma _apply_total value collection action default tgt :
  total (resolve value collection action default tgt).
Proof. apply _apply_fuel_enough, need_le. Qed.

(** The argument [default] is read only when [value] is [True]. *)
Lemma _apply_fuel_default n : forall value collection action d1 d2 tgt w,
  value <> VBool true ->
  resolve_fuel n value collection action d1 tgt w
  = resolve_fuel n value collection action d2 tgt w.
Proof.
  induction n as [|n IH]; intros value collection action d1 d2 tgt w Hv;
    [done|].
  cbn [_apply_fuel].
  destruct value as [| [] | | | | |d|]; try done.
  destruct (_ || _).
  { rewrite !bind_lift_regroup. destruct (regroup _ _ _); [done|].
    by apply IH. }
  destruct (_ || _); [|done].
  rewrite !bind_lift_regroup. destruct (regroup _ _ _); [done|]. by apply IH.
Qed.

Lemma _apply_default value collection action d1 d2 tgt w :
  value <> VBool true ->
  resolve value collection action d1 tgt w
  = resolve value collection action d2 tgt w.
Proof.
  intros Hv.
  assert (Hneed : forall d, need value d = S (rank value))
    by (intros d; destruct value as [| [] | | | | | |]; done).
  rewrite (_apply_at_fuel (S (rank value)) value collection action d1)
    by (rewrite Hneed; lia).
  rewrite (_apply_at_fuel (S (rank value)) value collection action d2)
    by (rewrite Hneed; lia).
  by apply _apply_fuel_default.
Qed.

(** ** [_apply] on [True] *)

(** C7, the claim as stated fails: with the boolean default [False] the
    call on [True] does not fail, it returns [None]. *)
Lemma apply_true_default_false_returns_none :
  _apply [] (fun _ _ => None) (VBool true) None None (VBool false) None
    module_world = Ok None module_world /\
  forall e,
    _apply [] (fun _ _ => None) (VBool true) None None (VBool false) None
      module_world <> Raise e.
Proof. split; [reflexivity | discriminate]. Qed.

(** C7, amended.  [_apply] on [True] fails at once (an assertion) when
    [default] is [True]; for every other [default] [D], [False] and [None]
    included, it is the call on [D] itself, whatever that call is given as
    its own [default]: same result, same store, same warnings. *)
Theorem apply_true_is_apply_default collection action D tgt w :
  _apply magics get_data_entry (VBool true) collection action (VBool true) tgt w
    = Raise AssertionError /\
  (D <> VBool true ->
   forall default,
     _apply magics get_data_entry (VBool true) collection action D tgt w
     = _apply magics get_data_entry D collection action default tgt w).
Proof.
  split; [reflexivity|]. intros HD default.
  rewrite (_apply_default D collection action default VNone) by done.
  rewrite (_apply_at_fuel (S (S (rank D))) (VBool true)) by done.
  rewrite (_apply_at_fuel (S (rank D)) D)
    by (destruct D as [| [] | | | | | |]; done).
  cbn [_apply_fuel]. by destruct D as [| [] | | | | | |].
Qed.

(** ** [_apply] on the grouping forms *)

Lemma _apply_set_clear d collection action default tgt w :
  dict_in "set" d || dict_in "clear" d = true ->
  resolve (VDict d) collection action default tgt w =
    match regroup "set" "clear" d with
    | inr nv => resolve (VDict nv) collection action default tgt w
    | inl e => Raise e
    end.
Proof.
  intros Hin.
  rewrite (_apply_at_fuel (S (rank (VDict d))) (VDict d)) by done.
  cbn [_apply_fuel]. rewrite Hin, bind_lift_regroup.
  destruct (regroup _ _ _) as [|nv] eqn:Hnv; [done|].
  pose proof (rank_regroup _ _ _ _ Hin Hnv).
  symmetry. apply _apply_at_fuel. cbn [need]. lia.
Qed.

Lemma _apply_plus_minus d collection action default tgt w :
  dict_in "set" d || dict_in "clear" d = false ->
  dict_in "+" d || dict_in "-" d = true ->
  resolve (VDict d) collection action default tgt w =
    match regroup "+" "-" d with
    | inr nv => resolve (VDict nv) collection action default tgt w
    | inl e => Raise e
    end.
Proof.
  intros Hno Hin.
  rewrite (_apply_at_fuel (S (rank (VDict d))) (VDict d)) by done.
  cbn [_apply_fuel]. rewrite Hno, Hin, bind_lift_regroup.
  destruct (regroup _ _ _) as [|nv] eqn:Hnv; [done|].
  pose proof (rank_regroup _ _ _ _ Hin Hnv).
  symmetry. apply _apply_at_fuel. cbn [need]. lia.
Qed.

Lemma _apply_flat d collection action default tgt w :
  dict_in "set" d || dict_in "clear" d = false ->
  dict_in "+" d || dict_in "-" d = false ->
  resolve (VDict d) collection action default tgt w = flat d action tgt w.
Proof.
  intros Hno Hno'.
  rewrite (_apply_at_fuel (S (rank (VDict d))) (VDict d)) by done.
  cbn [_apply_fuel]. by rewrite Hno, Hno'.
Qed.

Ltac prefix_key_cases k :=
  unfold prefix_key;
  destruct (String.eqb_spec k "set") as [->|?];
    [|destruct (String.eqb_spec k "clear") as [->|?]].

Lemma prefix_form_lookup_adds d :
  dict_in "+" d = false ->
  dict_lookup "+" (prefix_form d) = dict_lookup "set" d.
Proof.
  induction d as [|[k v] d IH]; [done|]. cbn [dict_in]. intros Hin.
  cbn [prefix_form map dict_lookup fst snd]. fold (prefix_form d).
  prefix_key_cases k; [done | by apply IH |].
  destruct (String.eqb_spec "+" k); [done|].
  destruct (String.eqb_spec "set" k); [congruence | by apply IH].
Qed.

Lemma prefix_form_lookup_removals d :
  dict_in "-" d = false ->
  dict_lookup "-" (prefix_form d) = dict_lookup "clear" d.
Proof.
  induction d as [|[k v] d IH]; [done|]. cbn [dict_in]. intros Hin.
  cbn [prefix_form map dict_lookup fst snd]. fold (prefix_form d).
  prefix_key_cases k; [by apply IH | done |].
  destruct (String.eqb_spec "-" k); [done|].
  destruct (String.eqb_spec "clear" k); [congruence | by apply IH].
Qed.

Lemma prefix_form_no_set_clear d :
  dict_in "set" (prefix_form d) || dict_in "clear" (prefix_form d) = false.
Proof.
  apply orb_false_intro; induction d as [|[k v] d IH]; try done;
    cbn [prefix_form map dict_in fst snd]; fold (prefix_form d);
    rewrite IH; prefix_key_cases k; try done.
  - destruct (String.eqb_spec "set" k); [congruence | done].
  - destruct (String.eqb_spec "clear" k); [congruence | done].
Qed.

Lemma prefix_form_regroup d :
  dict_in "+" d || dict_in "-" d = false ->
  regroup "+" "-" (prefix_form d) = regroup "set" "clear" d.
Proof.
  intros [Hp Hm]%orb_false_elim. unfold regroup, dict_get.
  by rewrite prefix_form_lookup_adds, prefix_form_lookup_removals.
Qed.

Lemma prefix_form_grouped d :
  dict_in "+" d || dict_in "-" d = false ->
  dict_in "+" (prefix_form d) || dict_in "-" (prefix_form d)
  = dict_in "set" d || dict_in "clear" d.
Proof.
  intros [Hp Hm]%orb_false_elim.
  assert (Hin : forall k k' d1 d2, dict_lookup k d1 = dict_lookup k' d2 ->
                                   dict_in k d1 = dict_in k' d2).
  { intros k k' d1 d2 H. destruct (dict_in k d1) eqn:H1.
    - apply dict_in_lookup in H1. rewrite H in H1.
      symmetry. by apply dict_in_lookup.
    - apply dict_in_false in H1. rewrite H in H1.
      symmetry. by apply dict_in_false. }
  f_equal; apply Hin;
    [by apply prefix_form_lookup_adds | by apply prefix_form_lookup_removals].
Qed.

(** What the rewrite of a grouped dictionary is made of. *)
Lemma dict_set_Forall (P : string * pyvalue -> Prop) k v d :
  P (k, v) -> Forall P d -> Forall P (dict_set k v d).
Proof.
  intros Hkv. induction 1 as [|[k' v'] d Hx Hd IH]; cbn [dict_set].
  - by repeat constructor.
  - destruct (String.eqb_spec k k') as [->|]; constructor; auto.
Qed.

Lemma dict_lookup_set k k' v d :
  dict_lookup k (dict_set k' v d)
  = if String.eqb k k' then Some v else dict_lookup k d.
Proof.
  induction d as [|[k0 v0] d IH]; cbn [dict_set dict_lookup]; [done|].
  destruct (String.eqb_spec k' k0) as [->|Hne]; cbn [dict_lookup].
  - by destruct (String.eqb k k0).
  - rewrite IH. destruct (String.eqb_spec k k0) as [->|]; [|done].
    apply String.eqb_neq in Hne. by rewrite String.eqb_sym, Hne.
Qed.

Lemma additions_rewritten adds removals kvs : forall acc,
  (forall kv, In kv kvs -> In kv adds) ->
  Forall (rewritten_item adds removals) acc ->
  Forall (rewritten_item adds removals)
    (fold_left (fun nv kv => dict_set ("+" ++ fst kv) (snd kv) nv) kvs acc).
Proof.
  induction kvs as [|[k v] kvs IH]; intros acc Hsub Hacc; [done|].
  cbn [fold_left]. apply IH; [intros; apply Hsub; by right|].
  apply dict_set_Forall; [|done].
  left. exists k. split; [done|]. apply Hsub. by left.
Qed.

Lemma removals_rewritten adds removals ks : forall nv nv',
  (forall x, In x ks -> In x removals) ->
  add_removals ks nv = inr nv' ->
  Forall (rewritten_item adds removals) nv ->
  Forall (rewritten_item adds removals) nv'.
Proof.
  induction ks as [|x ks IH]; intros nv nv' Hsub; cbn [add_removals].
  - by intros [= ->].
  - destruct (format x) as [|s] eqn:Hx; [done|]. intros Hnv' Hnv.
    apply (IH _ _ (fun y Hy => Hsub y (or_intror Hy)) Hnv').
    apply dict_set_Forall; [|done].
    right. exists x, s. repeat split; [|done]. apply Hsub. by left.
Qed.

Lemma additions_present kvs k v : forall acc,
  In (k, v) kvs \/ is_Some (dict_lookup ("+" ++ k) acc) ->
  is_Some (dict_lookup ("+" ++ k)
             (fold_left (fun nv kv => dict_set ("+" ++ fst kv) (snd kv) nv)
                        kvs acc)).
Proof.
  induction kvs as [|[k' v'] kvs IH]; intros acc [Hin|Hacc];
    cbn [fold_left]; try done.
  - destruct Hin as [[= -> ->]|Hin]; apply IH; [right | by left].
    cbn [fst snd]. by rewrite dict_lookup_set, String.eqb_refl.
  - apply IH. right. rewrite dict_lookup_set.
    by destruct (String.eqb _ _).
Qed.

Lemma removals_keep_additions ks k : forall nv nv',
  add_removals ks nv = inr nv' ->
  dict_lookup ("+" ++ k) nv' = dict_lookup ("+" ++ k) nv.
Proof.
  induction ks as [|x ks IH]; intros nv nv'; cbn [add_removals].
  - by intros [= ->].
  - destruct (format x) as [|s]; [done|]. intros H.
    rewrite (IH _ _ H), dict_lookup_set. done.
Qed.

Lemma removals_present ks x k : forall nv nv',
  add_removals ks nv = inr nv' ->
  (In x ks /\ format x = inr k) \/ dict_lookup ("-" ++ k) nv = Some VNone ->
  dict_lookup ("-" ++ k) nv' = Some VNone.
Proof.
  induction ks as [|y ks IH]; intros nv nv'; cbn [add_removals].
  - intros [= ->] [[[] _]|H]; done.
  - destruct (format y) as [|s] eqn:Hy; [done|]. intros Hnv' H.
    apply (IH _ _ Hnv'). rewrite dict_lookup_set.
    destruct H as [[[->|Hin] Hk]|H].
    + right. rewrite Hy in Hk. injection Hk as ->.
      by rewrite String.eqb_refl.
    + by left.
    + right. by destruct (String.eqb _ _).
Qed.

(** The rewrite of a grouped dictionary: every item is an addition taken
    from the first group or a removal taken from the second, every entry of
    the first group has its [+] key and every element of the second its
    [-] key, bound to [None]. *)
Lemma regroup_rewritten a r d nv :
  regroup a r d = inr nv ->
  exists adds removals,
    items (dict_get a (VDict []) d) = inr adds /\
    iterate (dict_get r (VList []) d) = inr removals /\
    Forall (rewritten_item adds removals) nv /\
    (forall k v, In (k, v) adds -> is_Some (dict_lookup ("+" ++ k) nv)) /\
    (forall x k, In x removals -> format x = inr k ->
                 dict_lookup ("-" ++ k) nv = Some VNone).
Proof.
  unfold regroup.
  destruct (items _) as [|adds]; [done|].
  destruct (iterate _) as [|removals]; [done|]. intros Hnv.
  exists adds, removals. repeat split; try done.
  - eapply removals_rewritten; [|exact Hnv|]; [done|].
    by apply additions_rewritten.
  - intros k v Hin. rewrite (removals_keep_additions _ _ _ _ Hnv).
    apply (additions_present adds k v). by left.
  - intros x k Hin Hk. apply (removals_present _ x k _ _ Hnv). by left.
Qed.

Lemma dict_in_set k k' v d :
  dict_in k (dict_set k' v d) = String.eqb k k' || dict_in k d.
Proof.
  induction d as [|[k0 v0] d IH]; cbn [dict_set dict_in].
  - by destruct (String.eqb k k').
  - destruct (String.eqb_spec k' k0) as [->|Hne]; cbn [dict_in].
    + by destruct (String.eqb k k0).
    + rewrite IH. destruct (String.eqb_spec k k0) as [->|]; [|done].
      by rewrite orb_true_r.
Qed.

Lemma dict_lookup_In k v d : dict_lookup k d = Some v -> In (k, v) d.
Proof.
  induction d as [|[k' v'] d IH]; cbn [dict_lookup]; [done|].
  destruct (String.eqb_spec k k') as [->|].
  - intros [= ->]. by left.
  - intros H. right. by apply IH.
Qed.

Lemma dict_lookup_NoDup k v d :
  List.NoDup (dict_keys d) -> In (k, v) d -> dict_lookup k d = Some v.
Proof.
  induction d as [|[k' v'] d IH]; cbn [dict_keys map fst dict_lookup];
    [done|].
  intros Hnd%List.NoDup_cons_iff Hin. destruct Hnd as [Hk' Hnd].
  destruct Hin as [[= -> ->]|Hin]; [by rewrite String.eqb_refl|].
  destruct (String.eqb_spec k k') as [->|]; [|by apply IH].
  destruct Hk'. apply List.in_map_iff. by exists (k', v).
Qed.

Lemma dict_set_fresh k v d :
  dict_in k d = false -> dict_set k v d = d ++ [(k, v)].
Proof.
  induction d as [|[k' v'] d IH]; cbn [dict_in dict_set app]; [done|].
  destruct (String.eqb k k'); [done|]. intros H. by rewrite IH.
Qed.

Lemma dict_in_app k d1 d2 :
  dict_in k (d1 ++ d2) = dict_in k d1 || dict_in k d2.
Proof.
  induction d1 as [|[k' v'] d1 IH]; cbn [app dict_in]; [done|].
  by destruct (String.eqb k k').
Qed.

Lemma dict_in_keys k d : dict_in k d = false <-> ~ In k (dict_keys d).
Proof.
  induction d as [|[k' v'] d IH]; cbn [dict_in dict_keys map fst In].
  - split; [by intros _ [] | done].
  - destruct (String.eqb_spec k k') as [->|Hne].
    + split; [done | intros H; destruct H; by left].
    + rewrite IH. split; [intros H [Heq|Hin]; [by destruct Hne | done]|].
      intros H Hin. apply H. by right.
Qed.

Lemma eqb_added k k' :
  String.eqb (String.append "+" k) (String.append "+" k') = String.eqb k k'.
Proof. reflexivity. Qed.

Lemma eqb_removed k k' :
  String.eqb (String.append "-" k) (String.append "-" k') = String.eqb k k'.
Proof. reflexivity. Qed.

Lemma dict_in_added_items k adds :
  dict_in (String.append "+" k) (added_items adds) = dict_in k adds.
Proof.
  induction adds as [|[k' v'] adds IH]; [done|].
  cbn [added_items map dict_in fst snd]. fold (added_items adds).
  by rewrite IH, eqb_added.
Qed.

Lemma removal_not_added k adds :
  dict_in (String.append "-" k) (added_items adds) = false.
Proof. induction adds as [|[k' v'] adds IH]; [done|]. exact IH. Qed.

Lemma dict_in_removed_items k ks :
  dict_in (String.append "-" k) (removed_items ks) = false <-> ~ In k ks.
Proof.
  induction ks as [|k' ks IH]; cbn [removed_items map dict_in In].
  - split; [by intros _ [] | done].
  - fold (removed_items ks). rewrite eqb_removed.
    destruct (String.eqb_spec k k') as [->|Hne].
    + split; [done | intros H; destruct H; by left].
    + rewrite IH. split; [intros H [Heq|Hin]; [by destruct Hne | done]|].
      intros H Hin. apply H. by right.
Qed.

Lemma dict_lookup_added_items k adds :
  dict_lookup (String.append "+" k) (added_items adds) = dict_lookup k adds.
Proof.
  induction adds as [|[k' v'] adds IH]; [done|].
  cbn [added_items map dict_lookup fst snd]. fold (added_items adds).
  by rewrite IH, eqb_added.
Qed.

(** The first loop of a rewrite, on a group whose keys are distinct, adds
    the entries of the group in order. *)
Lemma additions_exact kvs : forall acc,
  List.NoDup (dict_keys kvs) ->
  (forall k, In k (dict_keys kvs) -> dict_in (String.append "+" k) acc = false) ->
  fold_left (fun nv kv => dict_set ("+" ++ fst kv) (snd kv) nv) kvs acc
  = acc ++ added_items kvs.
Proof.
  induction kvs as [|[k v] kvs IH]; intros acc Hnd Hfresh;
    cbn [fold_left added_items map fst snd dict_keys] in *.
  - by rewrite app_nil_r.
  - apply List.NoDup_cons_iff in Hnd as [Hk Hnd]. fold (added_items kvs).
    rewrite IH; [|done|].
    + rewrite dict_set_fresh by (apply Hfresh; by left).
      by rewrite <- app_assoc.
    + intros k' Hk'. rewrite dict_in_set, (Hfresh k') by (by right).
      rewrite orb_false_r, eqb_added. apply String.eqb_neq. by intros ->.
Qed.

(** The second loop of a rewrite never fails on a list of names. *)
Lemma removals_total ks : forall nv,
  exists nv', add_removals (map VStr ks) nv = inr nv'.
Proof.
  induction ks as [|k ks IH]; intros nv; cbn [map add_removals format].
  - by exists nv.
  - apply IH.
Qed.

(** On distinct names it adds them in order. *)
Lemma removals_exact ks : forall nv,
  List.NoDup ks ->
  (forall k, In k ks -> dict_in (String.append "-" k) nv = false) ->
  add_removals (map VStr ks) nv = inr (nv ++ removed_items ks).
Proof.
  induction ks as [|k ks IH]; intros nv Hnd Hfresh;
    cbn [map add_removals format removed_items].
  - by rewrite app_nil_r.
  - apply List.NoDup_cons_iff in Hnd as [Hk Hnd]. fold (removed_items ks).
    rewrite IH; [|done|].
    + rewrite dict_set_fresh by (apply Hfresh; by left).
      by rewrite <- app_assoc.
    + intros k' Hk'. rewrite dict_in_set, (Hfresh k') by (by right).
      rewrite orb_false_r, eqb_removed. apply String.eqb_neq.
      by intros ->.
Qed.

(** The rewrite of a well-formed grouped dictionary: the first group is a
    dictionary (its keys distinct), the second a list of names. *)
Lemma regroup_well_formed a r d adds ks :
  dict_get a (VDict []) d = VDict adds ->
  List.NoDup (dict_keys adds) ->
  dict_get r (VList []) d = VList (map VStr ks) ->
  exists nv,
    regroup a r d = inr nv /\
    add_removals (map VStr ks) (added_items adds) = inr nv /\
    (forall k v, dict_lookup k adds = Some v ->
                 dict_lookup (String.append "+" k) nv = Some v) /\
    (forall k, In k ks -> dict_lookup (String.append "-" k) nv = Some VNone) /\
    (forall key v, dict_lookup key nv = Some v ->
       (exists k, key = String.append "+" k /\ dict_lookup k adds = Some v) \/
       (exists k, key = String.append "-" k /\ In k ks /\ v = VNone)) /\
    (List.NoDup ks -> nv = added_items adds ++ removed_items ks).
Proof.
  intros Ha Hnd Hr. unfold regroup. rewrite Ha, Hr. cbn [items iterate].
  rewrite (additions_exact adds [] Hnd) by done. cbn [app].
  destruct (removals_total ks (added_items adds)) as [nv Hnv].
  exists nv. split; [done|]. split; [done|].
  split; [|split; [|split]].
  - intros k v Hk. rewrite (removals_keep_additions _ _ _ _ Hnv).
    by rewrite dict_lookup_added_items.
  - intros k Hk. apply (removals_present _ (VStr k) k _ _ Hnv).
    left. split; [|done]. apply List.in_map_iff. by exists k.
  - intros key v Hkey%dict_lookup_In.
    assert (Forall (rewritten_item adds (map VStr ks)) nv) as Hall.
    { eapply removals_rewritten; [|exact Hnv|]; [done|].
      unfold added_items. apply List.Forall_forall.
      intros [k' v'] Hin%List.in_map_iff. destruct Hin as [[k0 v0] [[= <- <-] Hin]].
      left. exists k0. by split. }
    rewrite List.Forall_forall in Hall.
    destruct (Hall _ Hkey) as [[k [Hk Hin]]|[x [k [Hk [Hin [Hx Hv]]]]]];
      cbn [fst snd] in *.
    + left. exists k. split; [done|]. by apply dict_lookup_NoDup.
    + right. exists k. split; [done|].
      apply List.in_map_iff in Hin as [k0 [<- Hin]].
      cbn [format] in Hx. injection Hx as <-. by split.
  - intros Hks. rewrite removals_exact in Hnv; [by injection Hnv as <-|done|].
    intros k _. apply removal_not_added.
Qed.

(** C6.  A dictionary in the [set]/[clear] grouping form (no [+] or [-]
    key) and the same content in the [+]/[-] form are rewritten to the same
    flat dictionary, made of the [+]-prefixed keys of the additions and the
    [-]-prefixed keys of the removals bound to [None]; [_apply] recurses on
    that dictionary in both cases, so the two calls have the same outcome,
    whatever the other arguments and the store.  When [set] holds a
    dictionary [adds] and [clear] a list of names [ks], the rewrite succeeds
    in both forms: the flat dictionary binds [+k] to [adds[k]] and [-k] to
    [None] for [k] in [ks], binds nothing else and, the names being
    distinct, lists the additions then the removals in their order. *)
Theorem set_clear_is_plus_minus d collection action default tgt w :
  dict_in "+" d || dict_in "-" d = false ->
  dict_in "set" d || dict_in "clear" d = true ->
  regroup "set" "clear" d = regroup "+" "-" (prefix_form d) /\
  (forall nv, regroup "set" "clear" d = inr nv ->
     exists adds removals,
       items (dict_get "set" (VDict []) d) = inr adds /\
       iterate (dict_get "clear" (VList []) d) = inr removals /\
       Forall (rewritten_item adds removals) nv /\
       (forall k v, In (k, v) adds -> is_Some (dict_lookup ("+" ++ k) nv)) /\
       (forall x k, In x removals -> format x = inr k ->
                    dict_lookup ("-" ++ k) nv = Some VNone)) /\
  _apply magics get_data_entry (VDict d) collection action default tgt w =
    match regroup "set" "clear" d with
    | inr nv => _apply magics get_data_entry (VDict nv) collection action default tgt w
    | inl e => Raise e
    end /\
  _apply magics get_data_entry (VDict d) collection action default tgt w
  = _apply magics get_data_entry (VDict (prefix_form d)) collection action default tgt w /\
  (forall adds ks,
     dict_get "set" (VDict []) d = VDict adds ->
     List.NoDup (dict_keys adds) ->
     dict_get "clear" (VList []) d = VList (map VStr ks) ->
     exists nv,
       regroup "set" "clear" d = inr nv /\
       regroup "+" "-" (prefix_form d) = inr nv /\
       (forall k v, dict_lookup k adds = Some v ->
                    dict_lookup (String.append "+" k) nv = Some v) /\
       (forall k, In k ks ->
                  dict_lookup (String.append "-" k) nv = Some VNone) /\
       (forall key v, dict_lookup key nv = Some v ->
          (exists k, key = String.append "+" k /\
                     dict_lookup k adds = Some v) \/
          (exists k, key = String.append "-" k /\ In k ks /\ v = VNone)) /\
       (List.NoDup ks -> nv = added_items adds ++ removed_items ks) /\
       _apply magics get_data_entry (VDict d) collection action default tgt w
       = _apply magics get_data_entry (VDict nv) collection action default tgt w /\
       _apply magics get_data_entry (VDict (prefix_form d)) collection action
         default tgt w
       = _apply magics get_data_entry (VDict nv) collection action default tgt w).
Proof.
  intros Hpm Hsc.
  pose proof (prefix_form_regroup d Hpm) as Hre.
  assert (_apply magics get_data_entry (VDict d) collection action default tgt w
          = _apply magics get_data_entry (VDict (prefix_form d)) collection
              action default tgt w) as Hsame.
  { rewrite _apply_set_clear by done.
    rewrite (_apply_plus_minus (prefix_form d));
      [by rewrite Hre | apply prefix_form_no_set_clear |].
    by rewrite prefix_form_grouped. }
  split; [done|]. split; [apply regroup_rewritten|].
  split; [by apply _apply_set_clear|]. split; [done|].
  intros adds ks Ha Hnd Hr.
  destruct (regroup_well_formed "set" "clear" d adds ks Ha Hnd Hr)
    as (nv & Hnv & _ & Hadd & Hrem & Honly & Hexact).
  exists nv. rewrite Hre. repeat (split; [done|]).
  rewrite <- Hsame, _apply_set_clear by done. by rewrite Hnv.
Qed.

(** ** The scoring loop *)

Lemma count_prefixed_le keys : count_prefixed keys <= length keys.
Proof. induction keys as [|k keys IH]; simpl; [done|]. destruct (prefixed k); lia. Qed.

Lemma count_prefixed_pos keys k :
  In k keys -> prefixed k = true -> 0 < count_prefixed keys.
Proof.
  induction keys as [|k' keys IH]; simpl; [done|].
  intros [->|Hin] Hk; [rewrite Hk; lia|]. specialize (IH Hin Hk). lia.
Qed.

Lemma count_prefixed_lt keys k :
  In k keys -> prefixed k = false -> count_prefixed keys < length keys.
Proof.
  induction keys as [|k' keys IH]; simpl; [done|].
  intros [->|Hin] Hk.
  - rewrite Hk. pose proof (count_prefixed_le keys). lia.
  - specialize (IH Hin Hk). destruct (prefixed k'); lia.
Qed.

Lemma count_prefixed_all keys :
  Forall (fun k => prefixed k = true) keys -> count_prefixed keys = length keys.
Proof. induction 1 as [|k keys Hk _ IH]; simpl; [done|]. rewrite Hk. lia. Qed.

Lemma count_prefixed_none keys :
  Forall (fun k => prefixed k = false) keys -> count_prefixed keys = 0.
Proof. induction 1 as [|k keys Hk _ IH]; simpl; [done|]. by rewrite Hk. Qed.

(** The loop fails on an empty key only; otherwise [special] counts the
    prefixed keys. *)
Lemma score_keys_special keys : forall scores special,
  match score_keys magics keys scores special with
  | inl e => e = IndexError /\ In "" keys
  | inr scored => snd scored = special + count_prefixed keys /\ ~ In "" keys
  end.
Proof.
  induction keys as [|k keys IH]; intros scores special.
  - cbn. split; [lia | by intros []].
  - destruct k as [|c rest]; [cbn; split; [done | by left]|].
    cbn [score_keys].
    match goal with |- context [score_keys magics keys ?sc ?sp] =>
      specialize (IH sc sp); destruct (score_keys magics keys sc sp) as [e|scored]
    end.
    + destruct IH as [-> Hin]. split; [done | by right].
    + destruct IH as [-> Hin]. split.
      * cbn [count_prefixed prefixed]. destruct (negb (isalpha c)); lia.
      * intros [Heq|Hin']; [discriminate | done].
Qed.

(** ** The choice of the class *)

Lemma choose_action_inference value best action w :
  choose_action value best action w = inference value best action w.
Proof.
  unfold choose_action, inference, bind, warning, ret, raise.
  destruct best as [|b0 [|b1 rest]]; cbn [heap log].
  - done.
  - rewrite app_nil_r, world_eta. by destruct (globals (snd b0)).
  - destruct (fst b0 =? fst b1)%nat; cbn [heap log].
    + by destruct (globals (snd b0)).
    + rewrite app_nil_r, world_eta. by destruct (globals (snd b0)).
Qed.

Lemma inference_cases value best action w :
  inference value best action w = Raise KeyError \/
  exists act lg, inference value best action w
                 = Ok act (World (heap w) (log w ++ lg)).
Proof.
  unfold inference. destruct best as [|b0 rest]; [right; eauto|].
  destruct (globals (snd b0)); [right; eauto | by left].
Qed.

(** ** Mixed and unmatched patches *)

(** C4, amended.  On a dictionary without grouping keys a key counts as
    prefixed when its first character is not a letter.  If some key is
    prefixed and some key is not, [_apply] raises: [IndexError] when a key
    is empty; otherwise [KeyError] when the first entry of the ranking
    names no object of the module, and in every other case the contract
    violation "Cannot set some attributes and override others".  If every
    key is prefixed and [target.update] returns [None], [_apply] raises
    "Cannot override attributes (no matching style)". *)
Theorem mixed_or_unmatched_patch_fails d collection action default tgt w :
  dict_in "set" d || dict_in "clear" d = false ->
  dict_in "+" d || dict_in "-" d = false ->
  ((exists k, In k (dict_keys d) /\ prefixed k = true) ->
   (exists k, In k (dict_keys d) /\ prefixed k = false) ->
   (In "" (dict_keys d) ->
    _apply magics get_data_entry (VDict d) collection action default tgt w
      = Raise IndexError) /\
   (~ In "" (dict_keys d) ->
    exists scored,
      score_keys magics (dict_keys d) [] 0 = inr scored /\
      _apply magics get_data_entry (VDict d) collection action default tgt w
      = match best_of (fst scored) with
        | b0 :: _ =>
            match globals (snd b0) with
            | Some _ =>
                Raise (Exception
                         "Cannot set some attributes and override others")
            | None => Raise KeyError
            end
        | [] =>
            Raise (Exception "Cannot set some attributes and override others")
        end)) /\
  (d <> [] ->
   Forall (fun k => prefixed k = true) (dict_keys d) ->
   forall scored act w1 w2,
     score_keys magics (dict_keys d) [] 0 = inr scored ->
     choose_action d (best_of (fst scored)) action w = Ok act w1 ->
     target_update tgt act d w1 = Ok None w2 ->
     _apply magics get_data_entry (VDict d) collection action default tgt w
     = Raise (Exception "Cannot override attributes (no matching style)")).
Proof.
  intros Hsc Hpm. rewrite (_apply_flat d) by done. unfold apply_flat.
  pose proof (score_keys_special (dict_keys d) [] 0) as Hkeys.
  split.
  - intros [k1 [Hin1 Hk1]] [k2 [Hin2 Hk2]].
    destruct (score_keys magics (dict_keys d) [] 0) as [e|scored].
    { destruct Hkeys as [-> Hempty]. split; [done|]. by intros []. }
    destruct Hkeys as [Hsp Hempty]. split; [done|]. intros _.
    exists scored. split; [done|].
    cbn [lift]. unfold bind at 1, ret at 1. unfold bind at 1.
    rewrite choose_action_inference.
    pose proof (count_prefixed_pos _ _ Hin1 Hk1).
    pose proof (count_prefixed_lt _ _ Hin2 Hk2) as Hlt.
    unfold dict_keys in Hlt. rewrite length_map in Hlt.
    fold (dict_keys d) in Hlt.
    unfold inference.
    destruct (best_of (fst scored)) as [|b0 rest];
      [|destruct (globals (snd b0)); [|done]];
      (destruct (Nat.eqb_spec (snd scored) 0); [lia|]);
      (destruct (Nat.eqb_spec (snd scored) (length d)); [lia|]);
      reflexivity.
  - intros Hne Hall scored act w1 w2 Hscored Hact Hupd.
    rewrite Hscored in *. destruct Hkeys as [Hsp _].
    cbn [lift]. unfold bind at 1, ret at 1. unfold bind at 1. rewrite Hact.
    rewrite (count_prefixed_all _ Hall) in Hsp.
    unfold dict_keys in Hsp. rewrite length_map in Hsp.
    assert (0 < length d) by (destruct d; [done | simpl; lia]).
    destruct (Nat.eqb_spec (snd scored) 0); [lia|].
    destruct (Nat.eqb_spec (snd scored) (length d)); [|lia].
    cbn [negb]. unfold bind. by rewrite Hupd.
Qed.

(** ** The order of the ranking *)

Lemma ltb_lt a b : String.ltb a b = true <-> OrderedTypeEx.String_as_OT.lt a b.
Proof.
  unfold String.ltb. rewrite <- OrderedTypeEx.String_as_OT.cmp_lt.
  unfold OrderedTypeEx.String_as_OT.cmp. by destruct (String.compare a b).
Qed.

Lemma ltb_trans a b c :
  String.ltb a b = true -> String.ltb b c = true -> String.ltb a c = true.
Proof.
  rewrite !ltb_lt. apply OrderedTypeEx.String_as_OT.lt_trans.
Qed.

Lemma ltb_total a b :
  String.ltb a b = false -> String.ltb b a = true \/ a = b.
Proof.
  unfold String.ltb. rewrite (String.compare_antisym b a).
  destruct (String.compare a b) eqn:Hc; cbn; try done; [|by left].
  right. by apply String.compare_eq_iff.
Qed.

Lemma tuple_ltb_lt a b : tuple_ltb a b = true <-> tuple_lt a b.
Proof.
  unfold tuple_ltb, tuple_lt.
  rewrite orb_true_iff, andb_true_iff, Nat.ltb_lt, Nat.eqb_eq. done.
Qed.

Lemma tuple_lt_trans a b c : tuple_lt a b -> tuple_lt b c -> tuple_lt a c.
Proof.
  unfold tuple_lt. intros [?|[? ?]] [?|[? ?]]; try (left; lia).
  right. split; [lia|]. by eapply ltb_trans.
Qed.

Lemma tuple_le_trans a b c : tuple_le a b -> tuple_le b c -> tuple_le a c.
Proof.
  intros [Hab| ->] [Hbc| ->]; try (by left); try (by right).
  left. by eapply tuple_lt_trans.
Qed.

Lemma tuple_le_total a b : tuple_ltb a b = false -> tuple_le b a.
Proof.
  unfold tuple_ltb, tuple_le, tuple_lt.
  rewrite orb_false_iff, andb_false_iff, Nat.ltb_ge, Nat.eqb_neq.
  destruct a as [x s], b as [y t]; cbn [fst snd].
  intros [Hle [Hne|Hs]].
  - left. left. lia.
  - destruct (Nat.eq_dec x y) as [->|]; [|left; left; lia].
    destruct (ltb_total _ _ Hs) as [?| ->]; [left; by right | by right].
Qed.

(** ** [sorted] *)

Lemma insert_sorted_perm x l : Permutation (insert_sorted x l) (x :: l).
Proof.
  induction l as [|y l IH]; cbn [insert_sorted]; [done|].
  destruct (tuple_ltb y x); [|done].
  rewrite IH. apply perm_swap.
Qed.

Lemma insert_sorted_sorted x l :
  StronglySorted tuple_le l -> StronglySorted tuple_le (insert_sorted x l).
Proof.
  induction 1 as [|y l Hl IH Hy]; cbn [insert_sorted].
  - by repeat constructor.
  - destruct (tuple_ltb y x) eqn:Hyx.
    + constructor; [done|].
      rewrite (insert_sorted_perm x l). constructor; [|done].
      left. by apply tuple_ltb_lt.
    + pose proof (tuple_le_total _ _ Hyx) as Hxy.
      constructor; [by constructor|]. constructor; [done|].
      eapply Forall_impl; [exact Hy|]. intros z Hz.
      by eapply tuple_le_trans.
Qed.

Lemma sorted_perm l : Permutation (sorted l) l.
Proof.
  induction l as [|x l IH]; cbn [sorted fold_right]; [done|].
  fold (sorted l). by rewrite insert_sorted_perm, IH.
Qed.

Lemma sorted_sorted l : StronglySorted tuple_le (sorted l).
Proof.
  induction l as [|x l IH]; cbn [sorted fold_right]; [constructor|].
  by apply insert_sorted_sorted.
Qed.

(** The first entry of the ranking is the least candidate. *)
Lemma sorted_head_least l b0 rest b :
  sorted l = b0 :: rest -> In b l -> tuple_le b0 b.
Proof.
  intros Hs Hb. pose proof (sorted_sorted l) as Hss.
  apply (Permutation_in _ (Permutation_sym (sorted_perm l))) in Hb.
  rewrite Hs in Hss, Hb. inversion Hss as [|? ? _ Hall]; subst.
  destruct Hb as [->|Hb]; [by right|].
  by apply (proj1 (List.Forall_forall _ _) Hall).
Qed.

(** ** The scores *)

Lemma scores_get_incr t n scores :
  scores_get t (scores_incr n scores)
  = if String.eqb n t then S (scores_get t scores) else scores_get t scores.
Proof.
  unfold scores_get.
  induction scores as [|[m c] scores IH]; cbn [scores_incr find fst snd].
  - rewrite (String.eqb_sym t n). by destruct (String.eqb n t).
  - destruct (String.eqb_spec n m) as [->|Hnm]; cbn [find fst snd].
    + rewrite (String.eqb_sym t m). by destruct (String.eqb m t).
    + destruct (String.eqb_spec t m) as [->|Htm]; [|exact IH].
      apply String.eqb_neq in Hnm. by rewrite Hnm.
Qed.

Lemma scores_incr_names n scores :
  map fst (scores_incr n scores) = map fst scores \/
  (~ In n (map fst scores) /\
   map fst (scores_incr n scores) = map fst scores ++ [n]).
Proof.
  induction scores as [|[m c] scores IH]; cbn [scores_incr map fst].
  - right. split; [by intros []|done].
  - destruct (String.eqb_spec n m) as [->|Hnm]; [by left|].
    cbn [map fst]. destruct IH as [->|[Hn ->]]; [by left|].
    right. split; [|done]. intros [?|?]; [congruence | done].
Qed.

Lemma scores_incr_NoDup n scores :
  List.NoDup (map fst scores) -> List.NoDup (map fst (scores_incr n scores)).
Proof.
  intros Hnd. destruct (scores_incr_names n scores) as [->|[Hn ->]]; [done|].
  apply List.NoDup_app. repeat split; try done.
  - repeat constructor. by intros [].
  - intros x Hx [<-|[]]. done.
Qed.

Lemma scores_incr_pos n scores :
  Forall (fun e => 0 < snd e) scores ->
  Forall (fun e => 0 < snd e) (scores_incr n scores).
Proof.
  induction 1 as [|[m c] scores Hc Hs IH]; cbn [scores_incr].
  - repeat constructor.
  - destruct (String.eqb n m); constructor; cbn in *; auto; lia.
Qed.

Lemma scores_get_In t c scores :
  List.NoDup (map fst scores) -> In (t, c) scores -> scores_get t scores = c.
Proof.
  unfold scores_get.
  induction scores as [|[m c'] scores IH]; cbn [map fst find snd]; [done|].
  intros Hnd. inversion Hnd as [|? ? Hm Hnd']; subst.
  intros [[= -> ->]|Hin]; [by rewrite String.eqb_refl|].
  destruct (String.eqb_spec t m) as [->|]; [|by apply IH].
  exfalso. apply Hm. change m with (fst (m, c)). by apply List.in_map.
Qed.

Lemma scores_get_pos t scores :
  0 < scores_get t scores -> In (t, scores_get t scores) scores.
Proof.
  unfold scores_get.
  induction scores as [|[m c] scores IH]; cbn [find fst snd]; [lia|].
  destruct (String.eqb_spec t m) as [->|]; [by left|].
  intros H. right. by apply IH.
Qed.

(** After the loop each type has as score the number of keys that voted
    for it, on top of what it had. *)
Lemma score_keys_scores keys : forall scores special scored,
  score_keys magics keys scores special = inr scored ->
  (forall t, scores_get t (fst scored)
             = scores_get t scores + score magics t keys) /\
  (List.NoDup (map fst scores) -> List.NoDup (map fst (fst scored))) /\
  (Forall (fun e => 0 < snd e) scores ->
   Forall (fun e => 0 < snd e) (fst scored)).
Proof.
  induction keys as [|k keys IH]; intros scores special scored.
  - intros [= <-]. cbn. repeat split; auto.
  - destruct k as [|c rest]; [done|]. cbn [score_keys]. intros Hs.
    apply IH in Hs as (Hget & Hnd & Hpos). clear IH.
    cbn [score]. unfold votes_for. cbn [param_of].
    destruct (isalpha c); cbn [negb] in *;
      destruct (MAGICS_KEYS_get magics _) as [|name [|]];
      (split; [|split]);
      try (intros t; rewrite Hget, ?scores_get_incr;
           try destruct (String.eqb name t); lia);
      auto using scores_incr_NoDup, scores_incr_pos.
Qed.

(** The candidates of the ranking are the types with a positive score,
    each with its score. *)
Lemma best_of_candidates keys scored s t :
  score_keys magics keys [] 0 = inr scored ->
  In (s, t) (best_of (fst scored)) <-> s = score magics t keys /\ 0 < s.
Proof.
  intros Hs. apply score_keys_scores in Hs as (Hget & Hnd & Hpos).
  specialize (Hnd (List.NoDup_nil _)). specialize (Hpos (List.Forall_nil _)).
  assert (Hswap : In (s, t) (best_of (fst scored)) <-> In (t, s) (fst scored)).
  { unfold best_of. split.
    - intros Hin. apply (Permutation_in _ (sorted_perm _)) in Hin.
      apply List.in_map_iff in Hin as [[t' s'] [[= -> ->] Hin]]. done.
    - intros Hin.
      apply (Permutation_in _ (Permutation_sym (sorted_perm _))).
      apply List.in_map_iff. by exists (t, s). }
  rewrite Hswap. specialize (Hget t). cbn in Hget. split.
  - intros Hin. pose proof (scores_get_In _ _ _ Hnd Hin) as Hc.
    split; [lia|]. by apply (proj1 (List.Forall_forall _ _) Hpos (t, s)).
  - intros [-> Hp]. rewrite <- Hget in *. by apply scores_get_pos.
Qed.

(** ** The parameter index *)

Lemma set_add_In x y s : In x (set_add y s) <-> x = y \/ In x s.
Proof.
  unfold set_add. destruct (existsb (String.eqb y) s) eqn:Hy.
  - apply List.existsb_exists in Hy as [z [Hz ->%String.eqb_eq]].
    split; [by right | by intros [->|]].
  - rewrite List.in_app_iff. cbn. split; [intros [|[|[]]] | intros [|]]; auto.
Qed.

Lemma set_add_NoDup y s : List.NoDup s -> List.NoDup (set_add y s).
Proof.
  intros Hs. unfold set_add. destruct (existsb (String.eqb y) s) eqn:Hy; [done|].
  apply List.NoDup_app. repeat split; try done.
  - repeat constructor. by intros [].
  - intros x Hx [<-|[]].
    assert (existsb (String.eqb y) s = true); [|congruence].
    apply List.existsb_exists. exists y. by rewrite String.eqb_refl.
Qed.

Lemma index_get_add p q name idx :
  index_get p (index_add q name idx)
  = if String.eqb p q then set_add name (index_get p idx) else index_get p idx.
Proof.
  unfold index_get.
  induction idx as [|[q' names] idx IH]; cbn [index_add find fst snd].
  - by destruct (String.eqb p q).
  - destruct (String.eqb_spec q q') as [->|Hq]; cbn [find fst snd].
    + by destruct (String.eqb p q').
    + destruct (String.eqb_spec p q') as [->|Hp]; [|exact IH].
      apply String.eqb_neq in Hq. by rewrite String.eqb_sym, Hq.
Qed.

Lemma index_get_params p name params : forall idx,
  (forall x, In x (index_get p
                     (fold_left (fun idx param => index_add param name idx)
                                params idx))
             <-> In x (index_get p idx) \/ (x = name /\ In p params)) /\
  (List.NoDup (index_get p idx) ->
   List.NoDup (index_get p
                 (fold_left (fun idx param => index_add param name idx)
                            params idx))).
Proof.
  induction params as [|q params IH]; intros idx; cbn [fold_left].
  - split; [|done]. intros x. cbn. tauto.
  - destruct (IH (index_add q name idx)) as [Hin Hnd]. split.
    + intros x. rewrite Hin, index_get_add.
      destruct (String.eqb_spec p q) as [->|Hpq]; cbn [In].
      * rewrite set_add_In. tauto.
      * split; [tauto|]. intros [|[? [|]]]; [tauto | congruence | tauto].
    + intros Hidx. apply Hnd. rewrite index_get_add.
      destruct (String.eqb p q); [by apply set_add_NoDup | done].
Qed.

Lemma index_get_entries p entries : forall idx,
  (forall x, In x (index_get p
                     (fold_left
                        (fun idx entry =>
                           fold_left
                             (fun idx param => index_add param (fst entry) idx)
                             (snd entry) idx)
                        entries idx))
             <-> In x (index_get p idx) \/
                 exists params, In (x, params) entries /\ In p params) /\
  (List.NoDup (index_get p idx) ->
   List.NoDup (index_get p
                 (fold_left
                    (fun idx entry =>
                       fold_left
                         (fun idx param => index_add param (fst entry) idx)
                         (snd entry) idx)
                    entries idx))).
Proof.
  induction entries as [|[name params] entries IH]; intros idx;
    cbn [fold_left fst snd].
  - split; [|done]. intros x. split; [tauto|]. by intros [|[? [[] _]]].
  - destruct (IH (fold_left (fun idx param => index_add param name idx)
                            params idx)) as [Hin Hnd].
    destruct (index_get_params p name params idx) as [Hin' Hnd']. split.
    + intros x. rewrite Hin, Hin'. cbn [In]. split.
      * intros [[|[-> ?]]|(ps & ? & ?)]; [tauto| |]; right.
        -- exists params. tauto.
        -- exists ps. tauto.
      * intros [|(ps & [[= -> ->]|] & ?)]; [tauto|tauto|].
        right. by exists ps.
    + intros Hidx. by apply Hnd, Hnd'.
Qed.

(** The index maps a parameter to the set of the types whose entry in the
    vocabulary lists it. *)
Lemma MAGICS_KEYS_get_spec p :
  (forall name, In name (MAGICS_KEYS_get magics p)
                <-> exists params, In (name, params) magics /\ In p params) /\
  List.NoDup (MAGICS_KEYS_get magics p).
Proof.
  destruct (index_get_entries p magics []) as [Hin Hnd]. split.
  - intros name. unfold MAGICS_KEYS_get, MAGICS_KEYS.
    fold (index_get p (fold_left
                         (fun idx entry =>
                            fold_left
                              (fun idx param => index_add param (fst entry) idx)
                              (snd entry) idx) magics [])).
    rewrite Hin. cbn. tauto.
  - apply Hnd. constructor.
Qed.

(** ** Type inference *)

(** C3, amended.  On a dictionary without grouping keys (and without an
    empty key, on which the loop raises), the scoring loop consults every
    key, a prefixed key by its name without the prefix character and an
    unprefixed key by itself: it gives every type the number of keys whose
    parameter the index maps to that type alone, the index mapping a
    parameter to the types whose vocabulary entry lists it, and a key
    mapped to no type or to several voting for none; the ranking holds the
    types with a positive score, sorted by (score, name) ascending, so that
    its first entry is the least; the class is the one named by the first
    entry, a warning is logged when the first two entries have the same
    score, and when there is no entry a warning is logged and the class
    given by the caller is kept.  Without prefixed keys the result is that
    class called on the dictionary; with prefixed keys only, it is the
    target patched for that class. *)
Theorem type_inference d collection action default tgt w :
  dict_in "set" d || dict_in "clear" d = false ->
  dict_in "+" d || dict_in "-" d = false ->
  ~ In "" (dict_keys d) ->
  exists scored,
    score_keys magics (dict_keys d) [] 0 = inr scored /\
    (forall k, prefixed k = false -> param_of k = k) /\
    (forall c k, prefixed (String c k) = true -> param_of (String c k) = k) /\
    (forall p name,
       In name (MAGICS_KEYS_get magics p) <->
       exists params, In (name, params) magics /\ In p params) /\
    (forall k t, length (MAGICS_KEYS_get magics (param_of k)) <> 1 ->
                 votes_for magics t k = false) /\
    (forall s t, In (s, t) (best_of (fst scored)) <->
                 s = score magics t (dict_keys d) /\ 0 < s) /\
    StronglySorted tuple_le (best_of (fst scored)) /\
    (forall b0 rest b, best_of (fst scored) = b0 :: rest ->
                       In b (best_of (fst scored)) -> tuple_le b0 b) /\
    choose_action d (best_of (fst scored)) action w
      = inference d (best_of (fst scored)) action w /\
    (Forall (fun k => prefixed k = false) (dict_keys d) ->
     _apply magics get_data_entry (VDict d) collection action default tgt w =
       match inference d (best_of (fst scored)) action w with
       | Ok act w' => call act d w'
       | Raise e => Raise e
       | NoFuel => NoFuel
       end) /\
    (d <> [] ->
     Forall (fun k => prefixed k = true) (dict_keys d) ->
     _apply magics get_data_entry (VDict d) collection action default tgt w =
       match inference d (best_of (fst scored)) action w with
       | Ok act w' =>
           match target_update tgt act d w' with
           | Ok (Some r) w2 => Ok (Some r) w2
           | Ok None _ =>
               Raise (Exception
                        "Cannot override attributes (no matching style)")
           | Raise e => Raise e
           | NoFuel => NoFuel
           end
       | Raise e => Raise e
       | NoFuel => NoFuel
       end).
Proof.
  intros Hsc Hpm Hempty.
  pose proof (score_keys_special (dict_keys d) [] 0) as Hkeys.
  destruct (score_keys magics (dict_keys d) [] 0) as [e|scored] eqn:Hscored.
  { by destruct Hkeys as [_ Hin]. }
  destruct Hkeys as [Hsp _]. exists scored.
  split; [done|]. split.
  { intros [|c rest]; [done|]. cbn. by destruct (isalpha c). }
  split.
  { intros c k. cbn. by destruct (isalpha c). }
  split; [intros p; apply MAGICS_KEYS_get_spec|].
  split.
  { intros k t Hlen. unfold votes_for.
    by destruct (MAGICS_KEYS_get magics (param_of k)) as [|name [|]]. }
  split; [intros s t; by apply best_of_candidates|].
  split; [apply sorted_sorted|].
  split.
  { intros b0 rest b Hbest Hb. unfold best_of in *.
    apply (sorted_head_least _ _ _ _ Hbest).
    by apply (Permutation_in _ (sorted_perm _)). }
  split; [apply choose_action_inference|].
  split.
  - intros Hnone. rewrite (_apply_flat d) by done. unfold apply_flat.
    rewrite Hscored. cbn [lift]. unfold bind at 1, ret at 1. unfold bind at 1.
    rewrite choose_action_inference.
    destruct (inference _ _ _ _); try done.
    rewrite Hsp, (count_prefixed_none _ Hnone). done.
  - intros Hne Hall. rewrite (_apply_flat d) by done. unfold apply_flat.
    rewrite Hscored. cbn [lift]. unfold bind at 1, ret at 1. unfold bind at 1.
    rewrite choose_action_inference.
    destruct (inference _ _ _ _) as [act w1| |]; try done.
    rewrite Hsp, (count_prefixed_all _ Hall). unfold dict_keys.
    rewrite length_map. cbn [Nat.add].
    assert (0 < length d) by (destruct d; [done | simpl; lia]).
    destruct (Nat.eqb_spec (length d) 0); [lia|]. rewrite Nat.eqb_refl.
    cbn [negb]. unfold bind.
    by destruct (target_update tgt act d w1) as [[r|] w2| |].
Qed.

(** ** The bounding box in [show] *)

(** Set-if-absent, read back. *)
Lemma lookup_setIfAbsent k k' v kw :
  dict_lookup k (run_operation kw (setIfAbsent k' v))
  = if String.eqb k k'
    then match dict_lookup k kw with Some x => Some x | None => Some v end
    else dict_lookup k kw.
Proof.
  cbn [run_operation]. destruct (dict_in k' kw) eqn:Hin.
  - destruct (String.eqb_spec k k') as [->|]; [|done].
    apply dict_in_lookup in Hin as [x Hx]. by rewrite Hx.
  - rewrite dict_lookup_set.
    destruct (String.eqb_spec k k') as [->|]; [|done].
    apply dict_in_false in Hin. by rewrite Hin.
Qed.

Lemma patch_extent_lookup bbox kw k :
  dict_lookup k (patch kw (extent_patch bbox))
  = match dict_lookup k kw with
    | Some x => Some x
    | None => extent_of bbox k
    end.
Proof.
  unfold patch, extent_of.
  change (omap operation_of (extent_patch bbox)) with
    [setIfAbsent "subpage_upper_right_longitude" (east bbox);
     setIfAbsent "subpage_upper_right_latitude" (north bbox);
     setIfAbsent "subpage_lower_left_latitude" (south bbox);
     setIfAbsent "subpage_lower_left_longitude" (west bbox)].
  unfold fold_left. rewrite !lookup_setIfAbsent.
  change (dict_lookup (String "=" k) (extent_patch bbox)) with
    (if String.eqb k "subpage_upper_right_longitude" then Some (east bbox)
     else if String.eqb k "subpage_upper_right_latitude" then Some (north bbox)
     else if String.eqb k "subpage_lower_left_latitude" then Some (south bbox)
     else if String.eqb k "subpage_lower_left_longitude" then Some (west bbox)
     else None).
  destruct (dict_lookup k kw);
    repeat match goal with
           | |- context [String.eqb k ?s] => destruct (String.eqb k s)
           end; done.
Qed.

Lemma set_projection_same self p :
  _projection self = Some p -> set_projection self (Some p) = self.
Proof. destruct self; cbn. by intros ->. Qed.

(** The box written into a projection that the driver has. *)
Lemma show_extent_with_projection self p kw b bbox scored c w w1 :
  _projection self = Some p ->
  heap w !! p = Some (Instance mmap kw) ->
  _bounding_box self = Some b ->
  add_margins b (dict_get "margins" (VInt 0) (_options self)) = Some bbox ->
  score_keys magics (dict_keys (extent_patch bbox)) [] 0 = inr scored ->
  inference (extent_patch bbox) (best_of (fst scored)) (Some (GCls mmap)) w
    = Ok (Some (GCls c)) w1 ->
  issubclass mmap c = true ->
  let kw' := patch kw (extent_patch bbox) in
  let w2 := World (<[p := Instance mmap kw']> (heap w)) (log w1) in
  resolve (VDict (extent_patch bbox)) None (Some (GCls mmap)) (VBool true)
    (Some (TAction p)) w = Ok (Some p) w2 /\
  show_extent magics get_data_entry add_margins self w =
    match page_ratio p w2 with
    | Ok ratio w3 => Ok (set_page_ratio self ratio) w3
    | Raise e => Raise e
    | NoFuel => NoFuel
    end /\
  (forall name,
     dict_lookup name kw' =
       match dict_lookup name kw with
       | Some x => Some x
       | None => extent_of bbox name
       end) /\
  (forall name, ~ In name extent_names ->
                dict_lookup name kw' = dict_lookup name kw).
Proof.
  intros Hproj Hp Hbox Hmargins Hscored Hinf Hsub kw' w2.
  assert (Hheap : heap w1 = heap w).
  { unfold inference in Hinf.
    destruct (best_of (fst scored)) as [|b0 rest];
      [|destruct (globals (snd b0))]; try done;
      apply (f_equal (fun o => match o with
                               | Ok _ w' => heap w'
                               | _ => heap w
                               end)) in Hinf; by symmetry. }
  assert (Hres : resolve (VDict (extent_patch bbox)) None (Some (GCls mmap))
                   (VBool true) (Some (TAction p)) w = Ok (Some p) w2).
  { rewrite _apply_flat by done. unfold apply_flat.
    rewrite Hscored. cbn [lift]. unfold bind at 1, ret at 1. unfold bind at 1.
    rewrite choose_action_inference, Hinf.
    pose proof (score_keys_special (dict_keys (extent_patch bbox)) [] 0) as Hk.
    rewrite Hscored in Hk. destruct Hk as [-> _].
    cbn [count_prefixed prefixed dict_keys extent_patch map fst negb
         Nat.eqb Nat.add length].
    change (negb (isalpha "=")) with true. cbn [Nat.add Nat.eqb negb].
    cbn [target_update]. unfold bind.
    rewrite <- Hheap in Hp.
    rewrite (update_match p (Instance mmap kw) c (extent_patch bbox) w1 Hp
               Hsub);
      [by rewrite Hheap | repeat constructor; discriminate]. }
  split; [exact Hres|]. split; [|split].
  - unfold show_extent. rewrite Hproj. unfold bind at 1, ret at 1.
    rewrite Hbox, Hmargins, Hproj. cbn [option_map].
    unfold bind at 1. unfold bind at 1.
    change (VDict _) with (VDict (extent_patch bbox)).
    rewrite Hres. unfold ret at 1.
    rewrite (set_projection_same self p Hproj), Hproj.
    unfold bind, ret. by destruct (page_ratio p w2).
  - intros name. apply patch_extent_lookup.
  - intros name Hname. unfold kw'. rewrite patch_extent_lookup.
    destruct (dict_lookup name kw); [done|].
    unfold extent_of, extent_patch. cbn [dict_lookup].
    cbn [String.eqb Ascii.eqb Bool.eqb].
    repeat match goal with
           | |- context [String.eqb name ?s] =>
               destruct (String.eqb_spec name s) as [->|?]
           end; try done; exfalso; apply Hname; cbn; tauto.
Qed.

(** C1, amended.  In [show], when a bounding box was accumulated, it is
    expanded by the [margins] option and written with set-if-absent
    operations into the active projection, which is the driver's own or,
    when it has none, the cylindrical [mmap] created just before.  For a
    projection of class [mmap], when the class inferred from the four keys
    (or kept, [mmap]) is [mmap] or a base of it, the call returns that same
    projection, each of the four extent parameters keeps the value it had
    and takes the value of the expanded box only when it was not set, every
    other parameter is unchanged, and the page ratio is computed from the
    result; on the projection created by default the four parameters are
    those of the box. *)
Theorem show_extent_sets_absent_extent self kw b bbox scored c w w1 :
  heap (snd (active_projection self w)) !! fst (active_projection self w)
    = Some (Instance mmap kw) ->
  _bounding_box self = Some b ->
  add_margins b (dict_get "margins" (VInt 0) (_options self)) = Some bbox ->
  score_keys magics (dict_keys (extent_patch bbox)) [] 0 = inr scored ->
  inference (extent_patch bbox) (best_of (fst scored)) (Some (GCls mmap))
    (snd (active_projection self w)) = Ok (Some (GCls c)) w1 ->
  issubclass mmap c = true ->
  let p := fst (active_projection self w) in
  let w0 := snd (active_projection self w) in
  let kw' := patch kw (extent_patch bbox) in
  let w2 := World (<[p := Instance mmap kw']> (heap w0)) (log w1) in
  _apply magics get_data_entry (VDict (extent_patch bbox)) None
    (Some (GCls mmap)) (VBool true) (Some (TAction p)) w0 = Ok (Some p) w2 /\
  show_extent magics get_data_entry add_margins self w =
    match page_ratio p w2 with
    | Ok ratio w3 =>
        Ok (set_page_ratio (set_projection self (Some p)) ratio) w3
    | Raise e => Raise e
    | NoFuel => NoFuel
    end /\
  (forall name,
     dict_lookup name kw' =
       match dict_lookup name kw with
       | Some x => Some x
       | None => extent_of bbox name
       end) /\
  (forall name, ~ In name extent_names ->
                dict_lookup name kw' = dict_lookup name kw) /\
  (_projection self = None ->
   kw = kwargs default_projection /\
   forall name, In name extent_names ->
                dict_lookup name kw' = extent_of bbox name).
Proof.
  intros Hp Hbox Hmargins Hscored Hinf Hsub p w0 kw' w2.
  set (self0 := set_projection self (Some p)).
  assert (Hproj0 : _projection self0 = Some p) by done.
  assert (Hshow : show_extent magics get_data_entry add_margins self w
                  = show_extent magics get_data_entry add_margins self0 w0).
  { unfold self0, p, w0, active_projection, show_extent.
    destruct (_projection self) as [q|] eqn:Hq; cbn [fst snd].
    - by rewrite (set_projection_same self q Hq), Hq.
    - unfold bind at 1. unfold bind at 1. unfold new at 1. unfold ret at 1.
      unfold default_projection. done. }
  destruct (show_extent_with_projection self0 p kw b bbox scored c w0 w1
              Hproj0 Hp Hbox Hmargins Hscored Hinf Hsub)
    as (Hres & Hshow0 & Hlook & Hother).
  split; [exact Hres|]. split; [|split; [exact Hlook|split; [exact Hother|]]].
  - rewrite Hshow, Hshow0. fold kw' w2.
    by destruct (page_ratio p w2).
  - intros Hnone.
    assert (Hkw : kw = kwargs default_projection).
    { unfold p, w0, active_projection in Hp. rewrite Hnone in Hp.
      cbn [fst snd heap] in Hp. rewrite list_lookup_middle in Hp by done.
      by injection Hp as <-. }
    split; [exact Hkw|]. intros name Hname. rewrite Hlook, Hkw.
    cbn in Hname. by destruct Hname as [<-|[<-|[<-|[<-|[]]]]].
Qed.

(** ** Presets *)

(** A preset name resolves exactly when its entry is well formed, and then
    to a new instance of the class it names, with its parameters. *)
Lemma apply_named_ok collection name c kw w :
  preset_directive get_data_entry collection name = Some (c, kw) ->
  named collection name w
  = Ok (Some (length (heap w))) (World (heap w ++ [Instance c kw]) (log w)).
Proof.
  unfold preset_directive, apply_named.
  destruct (get_data_entry collection name) as [[| | | | | |data|]|]; try done.
  cbn [subscript]. destruct (dict_lookup "magics" data)
    as [[| | | | | |[|[a [| | | | | |kw'|]] [|]]|]|]; try done.
  destruct (globals a) as [[c'|]|] eqn:Ha; try done.
  destruct (dict_in "self" kw') eqn:Hself; [done|]. intros [= -> ->].
  cbv [lift bind ret keys dict_keys map fst]. rewrite Ha.
  cbn [subscript dict_lookup]. rewrite String.eqb_refl.
  cbn [mapping call]. by rewrite Hself.
Qed.


Lemma _apply_name name collection action default tgt w :
  resolve (VStr name) collection action default tgt w
  = named collection name w.
Proof. reflexivity. Qed.

(** ** [Driver.__init__] *)


(** ** [Driver.plot_csv] *)

Lemma style_of_new_layer self l value w :
  style magics get_data_entry (set_layers self (_layers self ++ [l])) value w
  = match resolve value (Some "styles") None (VBool true) (Some (TLayer l)) w
    with
    | Ok r w' => Ok (set_layers self (_layers self ++ [Layer_style l r])) w'
    | Raise e => Raise e
    | NoFuel => NoFuel
    end.
Proof.
  unfold style. cbn [_layers set_layers]. rewrite last_snoc.
  unfold bind, ret. destruct (resolve _ _ _ _ _ _); try done.
  f_equal. unfold set_layers. cbn [_layers]. f_equal.
  rewrite length_app. cbn [length]. rewrite Nat.add_1_r. cbn [pred].
  rewrite insert_app_r_alt by lia. by rewrite Nat.sub_diag.
Qed.

(** C10.  [plot_csv] does not read [variable]: whatever it is, the call
    creates the table directive with the fixed column roles, appends a layer
    for it, whose style is empty, and replaces that style with what the
    preset "default-style-observations" of the collection "styles" resolves
    to; it raises what that resolution raises.  With a well-formed preset
    (one directive class, no parameter named [self]) the call returns and
    the style of the new layer is a new instance of that class. *)
Theorem plot_csv_ignores_variable self path variable w :
  (forall variable',
     plot_csv magics get_data_entry self path variable w
     = plot_csv magics get_data_entry self path variable' w) /\
  plot_csv magics get_data_entry self path variable w =
    match
      _apply magics get_data_entry (VStr "default-style-observations") (Some "styles") None
        (VBool true) (Some (TLayer (mkLayer (Some (length (heap w))) None)))
        (World (heap w ++ [csv_table path]) (log w))
    with
    | Ok s w' =>
        Ok (set_layers self
              (_layers self ++ [mkLayer (Some (length (heap w))) s])) w'
    | Raise e => Raise e
    | NoFuel => NoFuel
    end /\
  (forall c kw,
     preset_directive get_data_entry (Some "styles")
       "default-style-observations" = Some (c, kw) ->
     plot_csv magics get_data_entry self path variable w =
       Ok (set_layers self
             (_layers self ++ [mkLayer (Some (length (heap w)))
                                       (Some (S (length (heap w))))]))
          (World (heap w ++ [csv_table path; Instance c kw]) (log w))).
Proof.
  assert (Hplot : plot_csv magics get_data_entry self path variable w =
    match
      resolve (VStr "default-style-observations") (Some "styles") None
        (VBool true) (Some (TLayer (mkLayer (Some (length (heap w))) None)))
        (World (heap w ++ [csv_table path]) (log w))
    with
    | Ok s w' =>
        Ok (set_layers self
              (_layers self ++ [mkLayer (Some (length (heap w))) s])) w'
    | Raise e => Raise e
    | NoFuel => NoFuel
    end).
  { unfold plot_csv. unfold bind at 1. unfold new at 1.
    fold (csv_table path). unfold bind at 1.
    unfold _push_layer, Layer__init__. unfold bind at 1. unfold bind at 1.
    unfold deref. cbn [heap]. rewrite list_lookup_middle by done.
    unfold ret at 1. unfold ret at 1. cbn [class_of csv_table].
    change (default_style mtable) with (@None loc).
    by rewrite style_of_new_layer. }
  split; [done|]. split; [exact Hplot|].
  intros c kw Hpreset. rewrite Hplot, _apply_name.
  rewrite (apply_named_ok _ _ _ _ _ Hpreset). cbn [heap log].
  rewrite length_app, <- app_assoc. cbn [length]. by rewrite Nat.add_1_r.
Qed.

(** ** What a call leaves of the store *)

Lemma extends_refl t w : extends t w w.
Proof.
  repeat split; [done | | exists []; by rewrite app_nil_r].
  intros i o Hi. by exists o.
Qed.

Lemma extends_trans t w1 w2 w3 :
  extends t w1 w2 -> extends t w2 w3 -> extends t w1 w3.
Proof.
  intros (Hl1 & Hh1 & [lg1 Hg1]) (Hl2 & Hh2 & [lg2 Hg2]).
  repeat split; [lia | | exists (lg1 ++ lg2); by rewrite Hg2, Hg1, app_assoc].
  intros i o Hi.
  destruct (Hh1 i o Hi) as (o1 & Hi1 & Hc1 & Ho1).
  destruct (Hh2 i o1 Hi1) as (o2 & Hi2 & Hc2 & Ho2).
  exists o2. repeat split; [done | congruence |].
  intros Ht. by rewrite (Ho2 Ht), (Ho1 Ht).
Qed.

Lemma extends_weaken t w w' : extends None w w' -> extends t w w'.
Proof.
  intros (Hl & Hh & Hg). repeat split; [done | | done].
  intros i o Hi. destruct (Hh i o Hi) as (o' & Hi' & Hc & Ho).
  exists o'. repeat split; [done | done |]. intros _. by apply Ho.
Qed.

Lemma preserves_weaken {A} t (m : M A) : preserves None m -> preserves t m.
Proof. intros H w a w' Hm. by apply extends_weaken, (H w a w'). Qed.

Lemma preserves_ret {A} t (a : A) : preserves t (ret a).
Proof. intros w a' w' [= _ <-]. apply extends_refl. Qed.

Lemma preserves_raise {A} t e : preserves t (@raise A e).
Proof. by intros w a w'. Qed.

Lemma preserves_lift {A} t (r : exn + A) : preserves t (lift r).
Proof. destruct r; [apply preserves_raise | apply preserves_ret]. Qed.

Lemma preserves_bind {A B} t (m : M A) (k : A -> M B) :
  preserves t m -> (forall a, preserves t (k a)) -> preserves t (bind m k).
Proof.
  intros Hm Hk w b w'. unfold bind.
  destruct (m w) as [a w1| |] eqn:Hmw; try done. intros Hkw.
  eapply extends_trans; [by eapply Hm | by eapply Hk].
Qed.

Lemma preserves_new t c kw : preserves t (new c kw).
Proof.
  intros w a w' [= _ <-]. unfold extends. cbn [heap log].
  split; [rewrite length_app; lia|].
  split; [|exists []; by rewrite app_nil_r].
  intros i o Hi. exists o. split; [by apply lookup_app_l_Some | done].
Qed.

Lemma preserves_deref t r : preserves t (deref r).
Proof.
  intros w a w'. unfold deref. destruct (heap w !! r); [|done].
  intros [= _ <-]. apply extends_refl.
Qed.

Lemma preserves_set_kwargs r kw : preserves (Some r) (set_kwargs r kw).
Proof.
  intros w a w'. unfold set_kwargs.
  destruct (heap w !! r) as [o0|] eqn:Hr; [|done]. intros [= <- <-].
  unfold extends. cbn [heap log].
  split; [by rewrite length_insert|].
  split; [|exists []; by rewrite app_nil_r].
  intros i o Hi. destruct (decide (i = r)) as [->|Hne].
  - exists (Instance (class_of o0) kw).
    rewrite list_lookup_insert_eq by (by eapply lookup_lt_Some).
    rewrite Hr in Hi. injection Hi as <-. by repeat split.
  - exists o. rewrite list_lookup_insert_ne by done. by repeat split.
Qed.

Lemma preserves_warning t d : preserves t (warning d).
Proof.
  intros w a w' [= <- <-]. unfold extends. cbn [heap log].
  split; [done|]. split; [|by eexists]. intros i o Hi. by exists o.
Qed.

Lemma preserves_for_each {A} t (l : list A) body :
  (forall x, preserves t (body x)) -> preserves t (for_each l body).
Proof.
  intros Hb. induction l; cbn [for_each]; [apply preserves_ret|].
  apply preserves_bind; auto.
Qed.

Create HintDb preserves.

#[local] Hint Resolve preserves_ret preserves_raise preserves_lift
  preserves_new preserves_deref preserves_set_kwargs preserves_warning
  : preserves.

Ltac preserves_step :=
  first [ solve [auto with preserves]
        | apply preserves_bind; [|intros ?]
        | apply preserves_for_each; intros ?
        | match goal with
          | |- preserves _ (if ?b then _ else _) => destruct b
          | |- preserves _ (match ?x with _ => _ end) => destruct x
          end ].

Lemma preserves_update_item self kv : preserves (Some self) (update_item self kv).
Proof. destruct kv as [[|c name] v]; cbn [update_item]; repeat preserves_step. Qed.

Lemma preserves_update self action values :
  preserves (Some self) (update self action values).
Proof.
  unfold update. apply preserves_bind.
  - destruct action as [[]|]; cbn [isinstance]; repeat preserves_step.
  - intros []; [|auto with preserves].
    apply preserves_bind; [|auto with preserves].
    apply preserves_for_each, preserves_update_item.
Qed.

Lemma preserves_target_update tgt action values :
  preserves (target_style tgt) (target_update tgt action values).
Proof.
  destruct tgt as [[r|l]|]; cbn [target_update target_style].
  - apply preserves_update.
  - unfold Layer_update. destruct (_style l);
      [apply preserves_update | auto with preserves].
  - auto with preserves.
Qed.

Lemma preserves_call t action kw : preserves t (call action kw).
Proof. destruct action as [[]|]; cbn [call]; repeat preserves_step. Qed.

Lemma preserves_choose_action t value best action :
  preserves t (choose_action value best action).
Proof. unfold choose_action. repeat preserves_step. Qed.

Lemma preserves_apply_flat value action tgt :
  preserves (target_style tgt) (flat value action tgt).
Proof.
  unfold apply_flat.
  apply preserves_bind; [auto with preserves|]. intros scored.
  apply preserves_bind; [apply preserves_choose_action|]. intros act.
  destruct (negb _); [|apply preserves_call].
  destruct (negb _); [auto with preserves|].
  apply preserves_bind; [apply preserves_target_update|].
  intros [r|]; auto with preserves.
Qed.

Lemma preserves_apply_named t collection name :
  preserves t (named collection name).
Proof.
  unfold apply_named. destruct (get_data_entry _ _); [|auto with preserves].
  apply preserves_bind; [auto with preserves|]. intros m.
  apply preserves_bind; [auto with preserves|].
  intros [|a [|]]; auto with preserves.
  destruct (globals a); [|auto with preserves].
  apply preserves_bind; [auto with preserves|]. intros kw.
  apply preserves_bind; [auto with preserves|]. intros kw'.
  apply preserves_call.
Qed.

Lemma preserves_apply_fuel n : forall value collection action default tgt,
  preserves (target_style tgt)
    (resolve_fuel n value collection action default tgt).
Proof.
  induction n as [|n IH]; intros value collection action default tgt;
    [by intros w a w'|].
  cbn [_apply_fuel].
  destruct value as [| [] | | | | s |d|]; auto with preserves.
  - destruct default as [| [] | | | | | |]; auto with preserves.
  - apply preserves_apply_named.
  - destruct (dict_in "set" d || dict_in "clear" d).
    { apply preserves_bind; [auto with preserves | intros nv; apply IH]. }
    destruct (dict_in "+" d || dict_in "-" d); [|apply preserves_apply_flat].
    apply preserves_bind; [auto with preserves | intros nv; apply IH].
Qed.

(** ** What [_apply] returns *)

Lemma allocates_nothing_ret {A} (a : A) : allocates_nothing (ret a).
Proof. by intros w a' w' [= _ <-]. Qed.

Lemma allocates_nothing_raise {A} e : allocates_nothing (@raise A e).
Proof. by intros w a w'. Qed.

Lemma allocates_nothing_bind {A B} (m : M A) (k : A -> M B) :
  allocates_nothing m -> (forall a, allocates_nothing (k a)) ->
  allocates_nothing (bind m k).
Proof.
  intros Hm Hk w b w'. unfold bind.
  destruct (m w) as [a w1| |] eqn:Hmw; try done. intros Hkw.
  rewrite (Hk _ _ _ _ Hkw). by eapply Hm.
Qed.

Lemma allocates_nothing_deref r : allocates_nothing (deref r).
Proof.
  intros w a w'. unfold deref. destruct (heap w !! r); [|done].
  by intros [= _ <-].
Qed.

Lemma allocates_nothing_set_kwargs r kw : allocates_nothing (set_kwargs r kw).
Proof.
  intros w a w'. unfold set_kwargs. destruct (heap w !! r); [|done].
  intros [= <- <-]. cbn [heap]. apply length_insert.
Qed.

Lemma allocates_nothing_for_each {A} (l : list A) body :
  (forall x, allocates_nothing (body x)) -> allocates_nothing (for_each l body).
Proof.
  intros Hb. induction l; cbn [for_each]; [apply allocates_nothing_ret|].
  apply allocates_nothing_bind; auto.
Qed.

Lemma allocates_nothing_update_item self kv :
  allocates_nothing (update_item self kv).
Proof.
  destruct kv as [[|c name] v]; cbn [update_item];
    [apply allocates_nothing_raise|].
  repeat first
    [ apply allocates_nothing_ret
    | apply allocates_nothing_deref
    | apply allocates_nothing_set_kwargs
    | apply allocates_nothing_bind; [|intros ?]
    | match goal with
      | |- allocates_nothing (if ?b then _ else _) => destruct b
      end ].
Qed.

Lemma for_each_update_length self values w w' :
  for_each values (update_item self) w = Ok tt w' ->
  length (heap w') = length (heap w).
Proof.
  apply (allocates_nothing_for_each values (update_item self)
           (allocates_nothing_update_item self)).
Qed.

Lemma update_returns self action values w r w' :
  update self action values w = Ok r w' ->
  (r = None /\ w' = w) \/
  (r = Some self /\ length (heap w') = length (heap w)).
Proof.
  unfold update. unfold bind at 1.
  destruct (isinstance self action w) as [b w1| |] eqn:Hinst; try done.
  assert (w1 = w) as ->.
  { destruct action as [[c|]|]; cbn [isinstance] in Hinst; try done.
    unfold bind, deref, ret in Hinst.
    destruct (heap w !! self); [|done]. by injection Hinst as _ <-. }
  destruct b.
  - unfold bind.
    destruct (for_each values (update_item self) w) as [[] w2| |] eqn:Hloop;
      try done.
    intros [= <- <-]. right. split; [done|].
    by eapply for_each_update_length.
  - intros [= <- <-]. by left.
Qed.

Lemma target_update_returns tgt action values w r w' :
  target_update tgt action values w = Ok r w' ->
  (r = None /\ w' = w) \/
  (r = target_style tgt /\ r <> None /\
   length (heap w') = length (heap w)).
Proof.
  destruct tgt as [[p|l]|]; cbn [target_update target_style]; [| |done].
  - intros H. apply update_returns in H as [?|[-> ?]]; [by left|].
    right. by repeat split.
  - unfold Layer_update. destruct (_style l) as [s|]; [|done].
    intros H. apply update_returns in H as [?|[-> ?]]; [by left|].
    right. by repeat split.
Qed.




(** * Further properties of the code *)

(** ** [_apply] as a whole *)

(** X1.  The recursion of [_apply] ends: it goes one level into the value
    at each call, so any fuel from [need] on gives the result of [_apply],
    which is never the lack of fuel. *)
Theorem apply_recursion_is_bounded n value collection action default tgt w :
  need value default <= n ->
  _apply_fuel magics get_data_entry n value collection action default tgt w
  = _apply magics get_data_entry value collection action default tgt w /\
  _apply magics get_data_entry value collection action default tgt w
  <> NoFuel.
Proof.
  intros Hn. split; [symmetry; by apply _apply_at_fuel | apply _apply_total].
Qed.

(** X2.  [default] is read only when [value] is [True]: for any other
    value the outcome does not depend on it. *)
Theorem apply_reads_default_on_true_only value collection action d1 d2 tgt w :
  value <> VBool true ->
  _apply magics get_data_entry value collection action d1 tgt w
  = _apply magics get_data_entry value collection action d2 tgt w.
Proof. apply _apply_default. Qed.

(** X3.  Whatever [_apply] is given, the store after a call that returns
    still holds every instance it held, each with its class; only the
    instance the target patches may have other parameters; warnings are
    only added. *)
Theorem apply_keeps_the_store value collection action default tgt w r w' :
  _apply magics get_data_entry value collection action default tgt w
    = Ok r w' ->
  extends (target_style tgt) w w'.
Proof. apply preserves_apply_fuel. Qed.



(** ** [Driver.style] *)

(** X6.  [style] raises when the driver has no layer.  When it returns, the
    driver had a last layer, whose style alone is replaced, by what
    [_apply] returned with that layer as target; the layers before it, its
    data and the other attributes are as they were. *)
Theorem style_replaces_the_last_style value self w :
  (_layers self = [] ->
   style magics get_data_entry self value w
     = Raise (Exception "No current data layer: cannot set style")) /\
  (forall self' w',
     style magics get_data_entry self value w = Ok self' w' ->
     exists before last r,
       _layers self = before ++ [last] /\
       _apply magics get_data_entry value (Some "styles") None (VBool true)
         (Some (TLayer last)) w = Ok r w' /\
       self' = set_layers self (before ++ [mkLayer (_data last) r])).
Proof.
  split.
  - intros Hnil. unfold style. by rewrite Hnil.
  - intros self' w'.
    destruct (_layers self) as [|l0 ls] eqn:Hls using rev_ind.
    { unfold style. by rewrite Hls. }
    clear IHls.
    assert (Hself : self = set_layers self (ls ++ [l0]))
      by (destruct self; cbn in *; by rewrite Hls).
    rewrite Hself at 1.
    replace (set_layers self (ls ++ [l0]))
      with (set_layers (set_layers self ls)
              (_layers (set_layers self ls) ++ [l0])) by done.
    rewrite style_of_new_layer.
    destruct (_apply _ _ _ _ _ _ _ _) as [r w1| |] eqn:Hr; try done.
    intros [= <- <-]. exists ls, l0, r. by repeat split.
Qed.

(** ** The shared default style *)

(** X7.  Every layer made for a field directive ([mgrib], [mnetcdf],
    [minput]) gets as style the one [mcont] that the class attribute
    [default_style] holds, not a copy: patching the style through one such
    layer changes the parameters that every other such layer has as
    style. *)
Theorem field_layers_share_their_style data1 data2 o1 o2 kw c values w :
  heap w !! data1 = Some o1 ->
  heap w !! data2 = Some o2 ->
  issubclass (class_of o1) FieldAction = true ->
  issubclass (class_of o2) FieldAction = true ->
  heap w !! FieldAction_default_style = Some (Instance mcont kw) ->
  issubclass mcont c = true ->
  Forall (fun kv => fst kv <> "") values ->
  exists l1 l2 w',
    Layer__init__ data1 w = Ok l1 w /\
    Layer__init__ data2 w = Ok l2 w /\
    _style l1 = Some FieldAction_default_style /\
    _style l2 = Some FieldAction_default_style /\
    Layer_update l2 (Some (GCls c)) values w
      = Ok (Some FieldAction_default_style) w' /\
    (forall s, _style l1 = Some s ->
               heap w' !! s = Some (Instance mcont (patch kw values))).
Proof.
  intros H1 H2 Hf1 Hf2 Hstyle Hc Hkeys.
  exists (mkLayer (Some data1) (Some FieldAction_default_style)),
         (mkLayer (Some data2) (Some FieldAction_default_style)).
  eexists. unfold Layer__init__, bind, deref, ret, default_style.
  rewrite H1, H2, Hf1, Hf2. repeat split.
  - unfold Layer_update. cbn [_style].
    by rewrite (update_match _ _ _ _ _ Hstyle Hc Hkeys).
  - cbn [_style heap class_of kwargs]. intros s [= <-].
    apply list_lookup_insert_eq. by eapply lookup_lt_Some.
Qed.

(** ** The candidate that is chosen *)

(** X8.  The ranking is ascending and its first entry is taken: the type
    that is chosen is a candidate with the lowest score, the first in
    alphabetical order among those, and not one with the highest. *)
Theorem inference_takes_the_lowest_score keys scored b0 rest :
  score_keys magics keys [] 0 = inr scored ->
  best_of (fst scored) = b0 :: rest ->
  fst b0 = score magics (snd b0) keys /\
  0 < fst b0 /\
  forall t, 0 < score magics t keys ->
            fst b0 <= score magics t keys /\
            (fst b0 = score magics t keys -> String.ltb t (snd b0) = false).
Proof.
  intros Hscored Hbest.
  assert (Hb0 : In (fst b0, snd b0) (best_of (fst scored)))
    by (rewrite Hbest; destruct b0; by left).
  apply (best_of_candidates _ _ _ _ Hscored) in Hb0 as [Hs Hpos].
  split; [done|]. split; [done|]. intros t Ht.
  assert (Hin : In (score magics t keys, t) (best_of (fst scored)))
    by (by apply (best_of_candidates _ _ _ _ Hscored)).
  assert (Hle : tuple_le b0 (score magics t keys, t)).
  { unfold best_of in *. apply (sorted_head_least _ _ _ _ Hbest).
    by apply (Permutation_in _ (sorted_perm _)). }
  destruct Hle as [[Hlt|[Heq Hltb]]| ->]; cbn [fst snd] in *.
  - split; [lia|]. intros; lia.
  - split; [lia|]. intros _.
    unfold String.ltb in *. rewrite String.compare_antisym.
    by destruct (String.compare (snd b0) t).
  - split; [done|]. intros _. unfold String.ltb.
    assert (String.compare t t = Eq) as ->; [|done].
    by apply OrderedTypeEx.String_as_OT.cmp_eq.
Qed.

(** ** Errors of [page_ratio] *)

(** X9.  [page_ratio] exists on [mmap] only (another class raises
    [AttributeError]); on float extents whose east and west are equal it
    raises [ZeroDivisionError]; an extent parameter bound to a string
    raises [TypeError]. *)
Theorem page_ratio_raises p o w :
  heap w !! p = Some o ->
  (class_of o <> mmap -> page_ratio p w = Raise AttributeError) /\
  (class_of o = mmap ->
   forall n s e we,
     extent "subpage_upper_right_latitude" 90 (kwargs o) = Some n ->
     extent "subpage_lower_left_latitude" (-90) (kwargs o) = Some s ->
     extent "subpage_upper_right_longitude" 180 (kwargs o) = Some e ->
     extent "subpage_lower_left_longitude" (-180) (kwargs o) = Some we ->
     is_zero (e - we) = true ->
     page_ratio p w = Raise ZeroDivisionError) /\
  (class_of o = mmap ->
   forall text,
     dict_lookup "subpage_upper_right_latitude" (kwargs o)
       = Some (VStr text) ->
     page_ratio p w = Raise TypeError).
Proof.
  intros Hp. unfold page_ratio, bind, deref. rewrite Hp. split; [|split].
  - by destruct (class_of o).
  - intros -> n s e we Hn Hs He Hw Hz.
    unfold extent in Hn, Hs, He, Hw. unfold dict_get.
    destruct (dict_lookup "subpage_upper_right_latitude" (kwargs o))
      as [[]|]; try discriminate; injection Hn as <-;
    destruct (dict_lookup "subpage_lower_left_latitude" (kwargs o))
      as [[]|]; try discriminate; injection Hs as <-;
    destruct (dict_lookup "subpage_upper_right_longitude" (kwargs o))
      as [[]|]; try discriminate; injection He as <-;
    (destruct (dict_lookup "subpage_lower_left_longitude" (kwargs o))
      as [[]|]; try discriminate; injection Hw as <-);
    cbn [py_sub as_number lift ret]; rewrite ?float_of_int_west;
    cbn [py_truediv as_number lift ret]; unfold ret, lift;
    cbn [py_truediv as_number]; rewrite Hz; reflexivity.
  - intros -> text Hn. unfold dict_get. rewrite Hn.
    by destruct (dict_lookup "subpage_lower_left_latitude" (kwargs o))
      as [[]|].
Qed.

(** ** [show] without a projection *)

(** X10.  In [show], a driver without projection and without bounding box
    gets a new cylindrical [mmap] as projection, and its page ratio is
    0.5, the ratio of the whole world. *)
Theorem show_defaults_to_the_world self w :
  _projection self = None ->
  _bounding_box self = None ->
  show_extent magics get_data_entry add_margins self w
  = Ok (set_page_ratio (set_projection self (Some (length (heap w))))
          (VFloat 0.5))
       (World (heap w ++
               [Instance mmap [("subpage_map_projection", VStr "cylindrical")]])
              (log w)).
Proof.
  intros Hproj Hbox. unfold show_extent. rewrite Hproj.
  unfold bind at 1. unfold bind at 1. unfold new at 1. unfold ret at 1.
  unfold bind at 1. cbn [_bounding_box set_projection]. rewrite Hbox.
  unfold ret at 1.
  change (_projection (set_projection self (Some (length (heap w)))))
    with (Some (length (heap w))).
  unfold bind at 1. unfold page_ratio, bind at 1, deref. cbn [heap].
  rewrite list_lookup_middle by done. reflexivity.
Qed.

(** ** The slots and the booleans *)

(** X11.  [background], [foreground] and [projection] given [False] or
    [None] empty their slot and leave the store as it is, and an emptied
    background has no entry in [macro]; [projection] has no default, so
    [True] fails its assertion. *)
Theorem slots_emptied_by_false self value w :
  value = VBool false \/ value = VNone ->
  background magics get_data_entry self value w
    = Ok (set_background self None) w /\
  foreground magics get_data_entry self value w
    = Ok (set_foreground self None) w /\
  projection magics get_data_entry self value w
    = Ok (set_projection self None) w /\
  macro (set_background self None)
    = omit_null (_projection self ::
                 flat_map (fun l => [_data l; _style l]) (_layers self) ++
                 [_rivers self; _borders self; _cities self;
                  _foreground self; _grid self; _legend self; _title self]) /\
  projection magics get_data_entry self (VBool true) w
    = Raise AssertionError.
Proof.
  intros Hv. repeat split; try (destruct Hv as [-> | ->]; reflexivity).
  unfold macro. cbn [_projection _background set_background _layers _rivers
                     _borders _cities _foreground _grid _legend _title].
  change (omap id) with omit_null.
  rewrite omit_null_app, layers_omit_null.
  change (_projection self :: ?l) with ([_projection self] ++ l).
  rewrite !omit_null_app, <- app_assoc.
  by destruct (_projection self).
Qed.

(** ** [Action.update] on an empty key *)

(** X12.  [update] reads the first character of every key: when the class
    matches, a dictionary with an empty key raises [IndexError]; when it
    does not match, the keys are not read and [None] is returned. *)
Theorem update_raises_on_empty_key self o c values w :
  heap w !! self = Some o ->
  In "" (dict_keys values) ->
  (issubclass (class_of o) c = true ->
   update self (Some (GCls c)) values w = Raise IndexError) /\
  (issubclass (class_of o) c = false ->
   update self (Some (GCls c)) values w = Ok None w).
Proof.
  intros Hself Hin. split; [|by apply update_mismatch].
  intros Hsub. unfold update, isinstance, bind at 1, bind at 1, deref, ret.
  rewrite Hself, Hsub.
  assert (Hloop : forall kw w0,
            heap w0 !! self = Some (Instance (class_of o) kw) ->
            for_each values (update_item self) w0 = Raise IndexError).
  { clear Hself. induction values as [|[k v] values IH]; [done|].
    intros kw w0 Hw0. cbn [for_each]. unfold bind.
    destruct k as [|ch name]; [done|].
    rewrite (update_item_spec self (class_of o) kw _ w0 Hw0) by done.
    destruct Hin as [Hin|Hin]; [done|].
    rewrite (IH Hin (patch kw [(String ch name, v)])); [done|].
    cbn [heap]. apply list_lookup_insert_eq. by eapply lookup_lt_Some. }
  unfold bind. rewrite (Hloop (kwargs o) w); [done|].
  by rewrite instance_eta.
Qed.

(** ** A patch without an inferred type *)

(** X13.  A dictionary of prefixed keys none of which the index maps to a
    single type leaves the class as the caller gave it: with no class
    given, as in [style], [background] and [foreground], the call logs the
    warning and then raises [TypeError] on a target that has a style
    ([isinstance] on [None]), and [AttributeError] on a target without. *)
Theorem patch_without_type_raises d collection default tgt w :
  dict_in "set" d || dict_in "clear" d = false ->
  dict_in "+" d || dict_in "-" d = false ->
  d <> [] ->
  Forall (fun k => prefixed k = true) (dict_keys d) ->
  (forall k t, In k (dict_keys d) -> votes_for magics t k = false) ->
  _apply magics get_data_entry (VDict d) collection None default tgt w
  = match target_style tgt with
    | Some _ => Raise TypeError
    | None => Raise AttributeError
    end.
Proof.
  intros Hsc Hpm Hne Hall Hvotes. rewrite (_apply_flat d) by done.
  unfold apply_flat.
  pose proof (score_keys_special (dict_keys d) [] 0) as Hkeys.
  destruct (score_keys magics (dict_keys d) [] 0) as [e|scored] eqn:Hscored.
  { destruct Hkeys as [_ Hin]. exfalso.
    by apply (proj1 (List.Forall_forall _ _) Hall "") in Hin. }
  destruct Hkeys as [Hsp _].
  assert (Hbest : best_of (fst scored) = []).
  { destruct (best_of (fst scored)) as [|[s t] rest] eqn:Hb; [done|].
    assert (Hin : In (s, t) (best_of (fst scored))) by (rewrite Hb; by left).
    apply (best_of_candidates _ _ _ _ Hscored) in Hin as [-> Hpos].
    exfalso. clear -Hvotes Hpos. revert Hvotes Hpos.
    induction (dict_keys d) as [|k ks IH]; cbn [score]; [lia|].
    intros Hvotes. rewrite (Hvotes k t) by (by left). cbn [Nat.add].
    apply IH. intros k' t' Hk'. apply Hvotes. by right. }
  cbn [lift]. unfold bind at 1, ret at 1. unfold bind at 1.
  rewrite choose_action_inference, Hbest. cbn [inference].
  rewrite Hsp, (count_prefixed_all _ Hall). unfold dict_keys.
  rewrite length_map. cbn [Nat.add].
  assert (0 < length d) by (destruct d; [done | simpl; lia]).
  destruct (Nat.eqb_spec (length d) 0); [lia|]. rewrite Nat.eqb_refl.
  cbn [negb]. unfold bind.
  destruct tgt as [[p|l]|]; cbn [target_update target_style]; try done.
  unfold Layer_update. by destruct (_style l).
Qed.

(** ** A dictionary of parameters of one type *)

Lemma best_of_names keys scored :
  score_keys magics keys [] 0 = inr scored ->
  List.NoDup (map snd (best_of (fst scored))).
Proof.
  intros Hs. apply score_keys_scores in Hs as (_ & Hnd & _).
  specialize (Hnd (List.NoDup_nil _)).
  eapply Permutation_NoDup; [|exact Hnd].
  unfold best_of. rewrite sorted_perm, List.map_map. cbn [snd].
  by apply Permutation_refl.
Qed.

(** X14.  A dictionary without prefixed keys, each of whose keys the index
    maps to one and the same type, the name of a directive class, gives a
    new instance of that class with exactly the dictionary as parameters,
    unless one of the keys is [self], which the constructor refuses with
    [TypeError]; no warning is logged and the target is not touched. *)
Theorem parameters_of_one_type_make_a_directive d t c collection action
    default tgt w :
  dict_in "set" d || dict_in "clear" d = false ->
  dict_in "+" d || dict_in "-" d = false ->
  d <> [] ->
  Forall (fun k => k <> "" /\ prefixed k = false) (dict_keys d) ->
  (forall k, In k (dict_keys d) -> MAGICS_KEYS_get magics k = [t]) ->
  globals t = Some (GCls c) ->
  _apply magics get_data_entry (VDict d) collection action default tgt w
  = if dict_in "self" d then Raise TypeError
    else Ok (Some (length (heap w)))
            (World (heap w ++ [Instance c d]) (log w)).
Proof.
  intros Hsc Hpm Hne Hkeys Hone Ht. rewrite (_apply_flat d) by done.
  unfold apply_flat.
  pose proof (score_keys_special (dict_keys d) [] 0) as Hspecial.
  destruct (score_keys magics (dict_keys d) [] 0) as [e|scored] eqn:Hscored.
  { destruct Hspecial as [_ Hin]. exfalso.
    by apply (proj1 (List.Forall_forall _ _) Hkeys "") in Hin as [? _]. }
  destruct Hspecial as [Hsp _].
  assert (Hnone : count_prefixed (dict_keys d) = 0).
  { apply count_prefixed_none. eapply Forall_impl; [exact Hkeys|].
    by intros k [_ ?]. }
  assert (Hscore : forall t', score magics t' (dict_keys d)
                              = if String.eqb t t' then length d else 0).
  { intros t'. unfold dict_keys in *. clear -Hkeys Hone.
    induction d as [|[k v] d IH]; cbn [map fst score length].
    - by destruct (String.eqb t t').
    - inversion Hkeys as [|? ? [Hk Hp] Hrest]; subst. cbn [fst] in *.
      rewrite IH by (try done; intros; apply Hone; by right).
      unfold votes_for. destruct k as [|ch name]; [done|].
      cbn [prefixed] in Hp. cbn [param_of].
      destruct (isalpha ch); [|done].
      rewrite (Hone (String ch name)) by (by left).
      by destruct (String.eqb t t'). }
  assert (Hbest : best_of (fst scored) = [(length d, t)]).
  { pose proof (best_of_names _ _ Hscored) as Hnd.
    assert (Hall : forall b, In b (best_of (fst scored)) -> b = (length d, t)).
    { intros [s t'] Hb.
      apply (best_of_candidates _ _ _ _ Hscored) in Hb as [-> Hpos].
      rewrite Hscore in *. destruct (String.eqb_spec t t') as [->|]; [done|lia]. }
    assert (Hin : In (length d, t) (best_of (fst scored))).
    { apply (best_of_candidates _ _ _ _ Hscored). rewrite Hscore.
      rewrite String.eqb_refl. split; [done|].
      destruct d; [done | simpl; lia]. }
    destruct (best_of (fst scored)) as [|b0 [|b1 rest]]; [done| |].
    - by rewrite (Hall b0) by (by left).
    - exfalso. rewrite (Hall b0), (Hall b1) in Hnd
        by (cbn; tauto). cbn in Hnd.
      inversion Hnd as [|? ? Hnot _]; subst. apply Hnot. by left. }
  cbn [lift]. unfold bind at 1, ret at 1. unfold bind at 1.
  rewrite choose_action_inference, Hbest. cbn [inference snd]. rewrite Ht.
  rewrite app_nil_r, world_eta, Hsp, Hnone. cbn [Nat.add Nat.eqb negb call].
  by destruct (dict_in "self" d).
Qed.

(** ** Patches create nothing *)

Lemma prefixed_keys_exclude d name :
  Forall (fun k => prefixed k = true) (dict_keys d) ->
  prefixed name = false ->
  dict_in name d = false.
Proof.
  unfold dict_keys. intros Hall Hname.
  induction d as [|[k v] d IH]; cbn [dict_in]; [done|].
  inversion Hall as [|? ? Hk Hrest]; subst. cbn [fst] in Hk.
  destruct (String.eqb_spec name k) as [->|]; [congruence | by apply IH].
Qed.

Lemma rewritten_item_prefixed adds removals kv :
  rewritten_item adds removals kv -> prefixed (fst kv) = true.
Proof. by intros [(k & -> & _)|(x & k & -> & _)]. Qed.

(** X15.  A dictionary all of whose keys are prefixed never creates a
    directive: when [_apply] returns on it, it returns the instance the
    target patches, and the store has the same instances.  The rewrite of a
    [set]/[clear] or [+]/[-] dictionary has prefixed keys only, so the same
    holds for a grouped dictionary whose names are not empty. *)
Theorem patches_create_nothing d collection action default tgt w r w' :
  d <> [] ->
  Forall (fun k => prefixed k = true) (dict_keys d) ->
  dict_in "+" d || dict_in "-" d = false ->
  (_apply magics get_data_entry (VDict d) collection action default tgt w
     = Ok r w' ->
   r = target_style tgt /\ r <> None /\
   length (heap w') = length (heap w)) /\
  (forall adds removals g nv,
     regroup adds removals g = inr nv ->
     Forall (fun k => prefixed k = true) (dict_keys nv)).
Proof.
  intros Hne Hall Hpm. split.
  - assert (Hsc : dict_in "set" d || dict_in "clear" d = false)
      by (by rewrite !(prefixed_keys_exclude d) by done).
    rewrite (_apply_flat d) by done. unfold apply_flat.
    pose proof (score_keys_special (dict_keys d) [] 0) as Hkeys.
    destruct (score_keys magics (dict_keys d) [] 0) as [e|scored]; [done|].
    destruct Hkeys as [Hsp _].
    cbn [lift]. unfold bind at 1, ret at 1. unfold bind at 1.
    rewrite choose_action_inference.
    destruct (inference_cases d (best_of (fst scored)) action w)
      as [->|(act & lg & ->)]; [done|].
    rewrite Hsp, (count_prefixed_all _ Hall). unfold dict_keys.
    rewrite length_map. cbn [Nat.add].
    assert (0 < length d) by (destruct d; [done | simpl; lia]).
    destruct (Nat.eqb_spec (length d) 0); [lia|]. rewrite Nat.eqb_refl.
    cbn [negb]. unfold bind.
    destruct (target_update _ _ _ _) as [[r0|] w2| |] eqn:Hupd; try done.
    intros [= <- <-].
    by apply target_update_returns in Hupd as [[? _]|(? & ? & ?)].
  - intros adds removals g nv Hnv.
    apply regroup_rewritten in Hnv as (a & rm & _ & _ & Hitems & _).
    unfold dict_keys. apply List.Forall_map.
    eapply Forall_impl; [exact Hitems|].
    intros kv. apply rewritten_item_prefixed.
Qed.

(** ** [plot_netcdf] and [plot_grib] *)

Lemma bind_ret {A B} (a : A) (k : A -> M B) w : bind (ret a) k w = k a w.
Proof. reflexivity. Qed.

Lemma push_new_layer self c kw w :
  bind (new c kw) (_push_layer self) w
  = Ok (set_layers self
          (_layers self ++ [mkLayer (Some (length (heap w)))
                                    (default_style c)]))
       (World (heap w ++ [Instance c kw]) (log w)).
Proof.
  unfold bind at 1, new, _push_layer, Layer__init__.
  unfold bind at 1, bind at 1, deref. cbn [heap].
  by rewrite list_lookup_middle.
Qed.

Lemma dimension_settings_length kvs settings :
  dimension_settings kvs = inr settings -> length settings = length kvs.
Proof.
  revert settings. induction kvs as [|[k v] kvs IH]; intros settings;
    cbn [dimension_settings].
  - by intros [= <-].
  - destruct (format v); [done|].
    destruct (dimension_settings kvs) as [|rest]; [done|].
    intros [= <-]. cbn [length]. by rewrite (IH rest).
Qed.

(** X16.  [plot_netcdf] treats no dimensions and an empty dictionary of
    dimensions alike: the directive has the file name and the variable
    only.  With dimensions it has in addition one setting per dimension, in
    their order, and the method "index".  The new layer has the shared
    default style.  Dimensions that are not a dictionary raise
    [AttributeError]. *)
Theorem plot_netcdf_dimensions self path variable w :
  plot_netcdf self path variable VNone w
    = plot_netcdf self path variable (VDict []) w /\
  plot_netcdf self path variable (VDict []) w
    = Ok (set_layers self
            (_layers self ++ [mkLayer (Some (length (heap w)))
                                      (Some FieldAction_default_style)]))
         (World (heap w ++
                 [Instance mnetcdf [("netcdf_filename", path);
                                    ("netcdf_value_variable", variable)]])
                (log w)) /\
  (forall kvs settings,
     kvs <> [] ->
     dimension_settings kvs = inr settings ->
     length settings = length kvs /\
     plot_netcdf self path variable (VDict kvs) w
     = Ok (set_layers self
             (_layers self ++ [mkLayer (Some (length (heap w)))
                                       (Some FieldAction_default_style)]))
          (World (heap w ++
                  [Instance mnetcdf
                     [("netcdf_filename", path);
                      ("netcdf_value_variable", variable);
                      ("netcdf_dimension_setting", VList settings);
                      ("netcdf_dimension_setting_method", VStr "index")]])
                 (log w))) /\
  (forall l, plot_netcdf self path variable (VList l) w
             = Raise AttributeError).
Proof.
  split; [done|]. split; [|split].
  - exact (push_new_layer self mnetcdf _ w).
  - intros kvs settings Hne Hsettings.
    pose proof (dimension_settings_length _ _ Hsettings) as Hlen.
    split; [done|]. unfold plot_netcdf. cbn [items lift].
    rewrite bind_ret, Hsettings. cbn [lift]. rewrite bind_ret.
    destruct settings as [|s settings];
      [destruct kvs; [done | discriminate]|].
    exact (push_new_layer self mnetcdf _ w).
  - done.
Qed.

(** X17.  [plot_grib] converts the offset with [int] before anything else:
    an offset that is [None] raises [TypeError] and the driver gets no
    layer; an integer offset, or a boolean taken as 0 or 1, gives one new
    layer, last, whose data is a new [mgrib] addressed by byte offset and
    whose style is the shared default style. *)
Theorem plot_grib_appends_a_layer self path offset position w :
  py_int offset = inr position ->
  plot_grib self path offset w
    = Ok (set_layers self
            (_layers self ++ [mkLayer (Some (length (heap w)))
                                      (Some FieldAction_default_style)]))
         (World (heap w ++
                 [Instance mgrib
                    [("grib_input_file_name", path);
                     ("grib_file_address_mode", VStr "byte_offset");
                     ("grib_field_position", VInt position)]])
                (log w)) /\
  plot_grib self path VNone w = Raise TypeError /\
  py_int (VBool true) = inr 1%Z.
Proof.
  intros Hint. split; [|done]. unfold plot_grib. rewrite Hint. cbn [lift].
  rewrite bind_ret. exact (push_new_layer self mgrib _ w).
Qed.

(** ** The decorations of [show] *)

Lemma decoration_on self name kw set w :
  truth (dict_get name (VBool false) (_options self)) = inr true ->
  decoration self name kw set w
  = Ok (set self (Some (length (heap w))))
       (World (heap w ++ [Instance mcoast kw]) (log w)).
Proof. intros Hon. unfold decoration. by rewrite Hon. Qed.

Lemma decoration_off self name kw set w :
  truth (dict_get name (VBool false) (_options self)) = inr false ->
  decoration self name kw set w = Ok self w.
Proof. intros Hoff. unfold decoration. by rewrite Hoff. Qed.

(** X18.  The toggles of [show] are read in the order grid, borders,
    rivers, cities, and each one that is on creates its [mcoast]; but
    [macro] lists them as rivers, borders, cities, then the foreground, and
    the grid after it.  A toggle that is off leaves its slot as it was:
    with the four off, nothing changes. *)
Theorem decorations_are_listed_in_a_fixed_order self w :
  (truth (dict_get "grid" (VBool false) (_options self)) = inr true ->
   truth (dict_get "borders" (VBool false) (_options self)) = inr true ->
   truth (dict_get "rivers" (VBool false) (_options self)) = inr true ->
   truth (dict_get "cities" (VBool false) (_options self)) = inr true ->
   exists self' w',
     show_decorations self w = Ok self' w' /\
     length (heap w') = length (heap w) + 4 /\
     _grid self' = Some (length (heap w)) /\
     _borders self' = Some (length (heap w) + 1) /\
     _rivers self' = Some (length (heap w) + 2) /\
     _cities self' = Some (length (heap w) + 3) /\
     macro self'
     = omit_null ([_projection self; _background self] ++
                  flat_map (fun l => [_data l; _style l]) (_layers self)) ++
       [length (heap w) + 2; length (heap w) + 1; length (heap w) + 3] ++
       omit_null [_foreground self] ++
       [length (heap w)] ++
       omit_null [_legend self; _title self]) /\
  (truth (dict_get "grid" (VBool false) (_options self)) = inr false ->
   truth (dict_get "borders" (VBool false) (_options self)) = inr false ->
   truth (dict_get "rivers" (VBool false) (_options self)) = inr false ->
   truth (dict_get "cities" (VBool false) (_options self)) = inr false ->
   show_decorations self w = Ok self w).
Proof.
  split.
  - intros Hg Hb Hr Hc. unfold show_decorations.
    unfold bind at 1. rewrite (decoration_on self _ _ _ _ Hg).
    unfold bind at 1.
    rewrite (decoration_on (set_grid self _) "borders" _ _ _ Hb).
    unfold bind at 1.
    rewrite (decoration_on (set_borders (set_grid self _) _) "rivers" _ _ _
               Hr).
    rewrite (decoration_on
               (set_rivers (set_borders (set_grid self _) _) _) "cities" _ _ _
               Hc).
    do 2 eexists. split; [reflexivity|]. cbn [heap log].
    rewrite !length_app. cbn [length].
    repeat split; cbn [_grid _borders _rivers _cities set_grid set_borders
                       set_rivers set_cities]; try lia; try (f_equal; lia).
    unfold macro.
    cbn [_projection _background _layers _rivers _borders _cities _foreground
         _grid _legend _title set_grid set_borders set_rivers set_cities].
    change (omap id) with omit_null.
    rewrite !omit_null_app, layers_omit_null.
    rewrite <- !app_assoc. f_equal. f_equal.
    replace (length (heap w) + 1 + 1 + 1) with (length (heap w) + 3) by lia.
    replace (length (heap w) + 1 + 1) with (length (heap w) + 2) by lia.
    by destruct (_foreground self), (_legend self), (_title self).
  - intros Hg Hb Hr Hc. unfold show_decorations.
    unfold bind at 1. rewrite (decoration_off _ _ _ _ _ Hg).
    unfold bind at 1. rewrite (decoration_off _ _ _ _ _ Hb).
    unfold bind at 1. rewrite (decoration_off _ _ _ _ _ Hr).
    by rewrite (decoration_off _ _ _ _ _ Hc).
Qed.

End MagicsFacts.

(** ** Instances at a concrete vocabulary and preset store *)

Lemma apply_true_is_apply_default_witness :
  _apply [] (fun _ _ => None) (VBool true) None None (VBool false) None
    module_world
  = _apply [] (fun _ _ => None) (VBool false) None None (VBool true) None
      module_world.
Proof.
  apply (proj2 (apply_true_is_apply_default [] (fun _ _ => None) None None
                  (VBool false) None module_world)).
  discriminate.
Defined.

Lemma set_clear_is_plus_minus_witness :
  regroup "set" "clear"
    [("set", VDict [("colour", VStr "red")]);
     ("clear", VList [VStr "legend"])]
  = inr [("+colour", VStr "red"); ("-legend", VNone)] /\
  regroup "+" "-"
    [("+", VDict [("colour", VStr "red")]);
     ("-", VList [VStr "legend"])]
  = inr [("+colour", VStr "red"); ("-legend", VNone)] /\
  _apply [] (fun _ _ => None)
    (VDict [("set", VDict [("colour", VStr "red")]);
            ("clear", VList [VStr "legend"])])
    None (Some (GCls mcont)) (VBool true) (Some (TAction 0)) module_world
  = _apply [] (fun _ _ => None)
      (VDict [("+", VDict [("colour", VStr "red")]);
              ("-", VList [VStr "legend"])])
      None (Some (GCls mcont)) (VBool true) (Some (TAction 0)) module_world /\
  _apply [] (fun _ _ => None)
    (VDict [("set", VDict [("colour", VStr "red")]);
            ("clear", VList [VStr "legend"])])
    None (Some (GCls mcont)) (VBool true) (Some (TAction 0)) module_world
  = Ok (Some 0)
       (World [Instance mcont [("contour_automatic_setting", VStr "ecmwf");
                               ("colour", VStr "red")]]
              [CannotEstablish ["+colour"; "-legend"]]).
Proof.
  destruct (set_clear_is_plus_minus [] (fun _ _ => None)
              [("set", VDict [("colour", VStr "red")]);
               ("clear", VList [VStr "legend"])]
              None (Some (GCls mcont)) (VBool true) (Some (TAction 0))
              module_world eq_refl eq_refl)
    as (_ & _ & _ & Hsame & Hflat).
  destruct (Hflat [("colour", VStr "red")] ["legend"] eq_refl)
    as (nv & Hset & Hplus & _ & _ & _ & Hexact & Hrec & _).
  - repeat constructor. by intros [].
  - reflexivity.
  - rewrite (Hexact ltac:(repeat constructor; by intros [])) in *.
    split; [exact Hset|]. split; [exact Hplus|]. split; [exact Hsame|].
    rewrite Hrec. reflexivity.
Defined.

(** C4, the claim as stated fails: [+colour] carries a modifier prefix and
    [_fill] carries none, yet the dictionary is not refused; the target is
    patched and returned. *)
Lemma underscore_key_is_not_refused :
  modifier_prefixed "+colour" = true /\
  modifier_prefixed "_fill" = false /\
  _apply [] (fun _ _ => None)
    (VDict [("+colour", VStr "red"); ("_fill", VStr "blue")])
    (Some "styles") (Some (GCls mcont)) (VBool true) (Some (TAction 0))
    module_world
  = Ok (Some 0)
       (World [Instance mcont [("contour_automatic_setting", VStr "ecmwf");
                               ("legend", VBool false);
                               ("colour", VStr "red")]]
              [CannotEstablish ["+colour"; "_fill"]]).
Proof. repeat split. Qed.

(** Scenario F, and a patch of a projection sent to a contour style. *)
Lemma mixed_or_unmatched_patch_fails_witness :
  _apply [] (fun _ _ => None)
    (VDict [("+colour", VStr "red"); ("fill", VStr "blue")])
    (Some "styles") None (VBool true) (Some (TAction 0)) module_world
  = Raise (Exception "Cannot set some attributes and override others") /\
  _apply [] (fun _ _ => None) (VDict [("+colour", VStr "red")])
    (Some "styles") (Some (GCls mmap)) (VBool true) (Some (TAction 0))
    module_world
  = Raise (Exception "Cannot override attributes (no matching style)").
Proof.
  split.
  - destruct (proj1 (mixed_or_unmatched_patch_fails [] (fun _ _ => None)
                       [("+colour", VStr "red"); ("fill", VStr "blue")]
                       (Some "styles") None (VBool true) (Some (TAction 0))
                       module_world eq_refl eq_refl))
      as [_ Hraise].
    + exists "+colour". split; [by left | reflexivity].
    + exists "fill". split; [right; by left | reflexivity].
    + destruct Hraise as (scored & Hscored & Happly).
      * cbn. intros [H|[H|[]]]; discriminate.
      * injection Hscored as <-. exact Happly.
  - refine (proj2 (mixed_or_unmatched_patch_fails [] (fun _ _ => None)
                     [("+colour", VStr "red")]
                     (Some "styles") (Some (GCls mmap)) (VBool true)
                     (Some (TAction 0)) module_world eq_refl eq_refl)
                  _ _ ([], 1) (Some (GCls mmap))
                  (World (heap module_world)
                         [CannotEstablish ["+colour"]])
                  (World (heap module_world)
                         [CannotEstablish ["+colour"]])
                  eq_refl eq_refl eq_refl).
    + discriminate.
    + repeat constructor.
Defined.

(** C3, the claim as stated fails: in the dictionary with the one key
    [+contour] no unprefixed key scores, so by the claim there is no
    candidate, a warning is logged and no type is inferred; but the code
    scores the key without its prefix, infers [mcont] over the [msymb] of
    the caller, logs nothing and patches the target. *)
Lemma prefixed_key_is_scored :
  (forall t, unprefixed_score three_parameters t ["+contour"] = 0) /\
  (exists scored,
     score_keys three_parameters ["+contour"] [] 0 = inr scored /\
     best_of (fst scored) = [(1, "mcont")]) /\
  _apply three_parameters (fun _ _ => None)
    (VDict [("+contour", VBool true)]) None (Some (GCls msymb)) (VBool true)
    (Some (TAction 0)) module_world
  = Ok (Some 0)
       (World [Instance mcont [("contour_automatic_setting", VStr "ecmwf");
                               ("legend", VBool false);
                               ("contour", VBool true)]] []).
Proof.
  split; [intros t; reflexivity|]. split; [|reflexivity].
  eexists. split; reflexivity.
Qed.

(** A tie: one vote each, the warning is logged and [mcont], the lesser
    name, is instantiated. *)
Lemma type_inference_witness :
  _apply two_types (fun _ _ => None)
    (VDict [("symbol_type", VStr "marker"); ("contour", VBool true);
            ("legend", VBool true)])
    None None (VBool true) None module_world
  = Ok (Some 1)
       (World (heap module_world ++
               [Instance mcont [("symbol_type", VStr "marker");
                                ("contour", VBool true);
                                ("legend", VBool true)]])
              [CouldBe ["symbol_type"; "contour"; "legend"] "mcont" "msymb"]).
Proof.
  destruct (type_inference two_types (fun _ _ => None)
              [("symbol_type", VStr "marker"); ("contour", VBool true);
               ("legend", VBool true)]
              None None (VBool true) None module_world eq_refl eq_refl)
    as (scored & Hscored & _ & _ & _ & _ & _ & _ & _ & _ & Happly & _).
  - cbn. intros [H|[H|[H|[]]]]; discriminate.
  - injection Hscored as <-. apply Happly. repeat constructor.
Defined.

(** C1, the claim as stated fails: the eastern bound already on the
    projection, 50, is not overridden by that of the accumulated box, 10;
    the three bounds that were absent are taken from the box. *)
Lemma show_extent_keeps_present_extent :
  exists self' w' kw',
    show_extent extent_vocabulary (fun _ _ => None) (fun b _ => Some b)
      bounded_driver bounded_world = Ok self' w' /\
    _projection self' = Some 1 /\
    heap w' !! 1 = Some (Instance mmap kw') /\
    dict_lookup "subpage_upper_right_longitude" kw' = Some (VInt 50) /\
    dict_lookup "subpage_upper_right_longitude" kw' <> Some (VInt 10) /\
    dict_lookup "subpage_upper_right_latitude" kw' = Some (VInt 20).
Proof.
  do 3 eexists. split; [vm_compute; reflexivity|].
  repeat split; try reflexivity. discriminate.
Qed.

Lemma show_extent_sets_absent_extent_witness :
  show_extent extent_vocabulary (fun _ _ => None) (fun b _ => Some b)
    boxed_driver module_world
  = Ok (set_page_ratio (set_projection boxed_driver (Some 1)) (VFloat 2))
       (World (heap module_world ++
               [Instance mmap [("subpage_map_projection", VStr "cylindrical");
                               ("subpage_upper_right_longitude", VInt 10);
                               ("subpage_upper_right_latitude", VInt 20);
                               ("subpage_lower_left_latitude", VInt (-20));
                               ("subpage_lower_left_longitude", VInt (-10))]])
              []).
Proof.
  exact (proj1 (proj2
    (show_extent_sets_absent_extent extent_vocabulary
       (fun _ _ => None) (fun b _ => Some b) boxed_driver
       (kwargs default_projection)
       (mkBoundingBox (VInt 20) (VInt (-10)) (VInt (-20)) (VInt 10))
       (mkBoundingBox (VInt 20) (VInt (-10)) (VInt (-20)) (VInt 10))
       ([("mmap", 4)], 4) mmap module_world
       (World (heap module_world ++ [default_projection]) [])
       eq_refl eq_refl eq_refl eq_refl eq_refl eq_refl))).
Defined.


Lemma plot_csv_ignores_variable_witness :
  plot_csv [] three_presets (initial_driver [] None None) (VStr "points.csv")
    (VStr "t2m") module_world
  = Ok (set_layers (initial_driver [] None None)
          [mkLayer (Some 1) (Some 2)])
       (World (heap module_world ++
               [csv_table (VStr "points.csv");
                Instance msymb [("symbol_type", VStr "marker")]]) []).
Proof.
  exact (proj2 (proj2 (plot_csv_ignores_variable [] three_presets
                         (initial_driver [] None None) (VStr "points.csv")
                         (VStr "t2m") module_world))
               msymb [("symbol_type", VStr "marker")] eq_refl).
Defined.

(** ** Instances of the further properties *)

Lemma apply_recursion_is_bounded_witness :
  _apply_fuel [] (fun _ _ => None) 5
    (VDict [("set", VDict [("colour", VStr "red")])])
    None (Some (GCls mcont)) (VBool true) (Some (TAction 0)) module_world
  = _apply [] (fun _ _ => None)
      (VDict [("set", VDict [("colour", VStr "red")])])
      None (Some (GCls mcont)) (VBool true) (Some (TAction 0)) module_world /\
  _apply [] (fun _ _ => None)
    (VDict [("set", VDict [("colour", VStr "red")])])
    None (Some (GCls mcont)) (VBool true) (Some (TAction 0)) module_world
  <> NoFuel.
Proof.
  apply (apply_recursion_is_bounded [] (fun _ _ => None) 5). cbn. lia.
Defined.

Lemma apply_reads_default_on_true_only_witness :
  _apply [] three_presets (VStr "default-background") (Some "layers") None
    (VBool true) None module_world
  = _apply [] three_presets (VStr "default-background") (Some "layers") None
      (VStr "default-foreground") None module_world.
Proof.
  apply (apply_reads_default_on_true_only [] three_presets). discriminate.
Defined.

Lemma apply_keeps_the_store_witness :
  extends (Some 0) module_world
    (World [Instance mcont [("contour_automatic_setting", VStr "ecmwf");
                            ("legend", VBool false);
                            ("colour", VStr "red")]]
           [CannotEstablish ["+colour"]]).
Proof.
  exact (apply_keeps_the_store [] (fun _ _ => None)
           (VDict [("+colour", VStr "red")]) None (Some (GCls mcont))
           (VBool true) (Some (TAction 0)) module_world (Some 0) _ eq_refl).
Defined.



Lemma style_replaces_the_last_style_witness :
  style [] three_presets (initial_driver [] None None)
    (VStr "default-style-observations") module_world
  = Raise (Exception "No current data layer: cannot set style").
Proof.
  exact (proj1 (style_replaces_the_last_style [] three_presets
                  (VStr "default-style-observations")
                  (initial_driver [] None None) module_world) eq_refl).
Defined.

Lemma field_layers_share_their_style_witness :
  exists l1 l2 w',
    Layer__init__ 1 two_fields = Ok l1 two_fields /\
    Layer__init__ 2 two_fields = Ok l2 two_fields /\
    _style l1 = Some FieldAction_default_style /\
    _style l2 = Some FieldAction_default_style /\
    Layer_update l2 (Some (GCls mcont)) [("+legend", VBool true)] two_fields
      = Ok (Some FieldAction_default_style) w' /\
    (forall s, _style l1 = Some s ->
               heap w' !! s
               = Some (Instance mcont
                         (patch [("contour_automatic_setting", VStr "ecmwf");
                                 ("legend", VBool false)]
                                [("+legend", VBool true)]))).
Proof.
  apply (field_layers_share_their_style 1 2 _ _ _ mcont
           [("+legend", VBool true)] two_fields
           eq_refl eq_refl eq_refl eq_refl eq_refl eq_refl).
  repeat constructor. discriminate.
Defined.

Lemma inference_takes_the_lowest_score_witness :
  1 = score three_parameters "msymb"
        ["contour"; "contour_level_count"; "symbol_type"] /\
  0 < 1 /\
  forall t,
    0 < score three_parameters t
          ["contour"; "contour_level_count"; "symbol_type"] ->
    1 <= score three_parameters t
           ["contour"; "contour_level_count"; "symbol_type"] /\
    (1 = score three_parameters t
           ["contour"; "contour_level_count"; "symbol_type"] ->
     String.ltb t "msymb" = false).
Proof.
  exact (inference_takes_the_lowest_score three_parameters
           ["contour"; "contour_level_count"; "symbol_type"]
           ([("mcont", 2); ("msymb", 1)], 0) (1, "msymb") [(2, "mcont")]
           eq_refl eq_refl).
Defined.

Lemma page_ratio_raises_witness :
  page_ratio 0 module_world = Raise AttributeError.
Proof.
  apply (proj1 (page_ratio_raises 0 _ module_world eq_refl)). discriminate.
Defined.

Lemma show_defaults_to_the_world_witness :
  show_extent [] (fun _ _ => None) (fun b _ => Some b)
    (initial_driver [] None None) module_world
  = Ok (set_page_ratio (set_projection (initial_driver [] None None) (Some 1))
          (VFloat 0.5))
       (World (heap module_world ++
               [Instance mmap [("subpage_map_projection", VStr "cylindrical")]])
              []).
Proof.
  exact (show_defaults_to_the_world [] (fun _ _ => None) (fun b _ => Some b)
           (initial_driver [] None None) module_world eq_refl eq_refl).
Defined.

Lemma slots_emptied_by_false_witness :
  background [] three_presets (initial_driver [] (Some 1) (Some 2))
    (VBool false) module_world
  = Ok (initial_driver [] None (Some 2)) module_world.
Proof.
  exact (proj1 (slots_emptied_by_false [] three_presets
                  (initial_driver [] (Some 1) (Some 2)) (VBool false)
                  module_world (or_introl eq_refl))).
Defined.

Lemma update_raises_on_empty_key_witness :
  update 0 (Some (GCls mcont)) [("+colour", VStr "red"); ("", VNone)]
    module_world = Raise IndexError.
Proof.
  apply (proj1 (update_raises_on_empty_key 0 _ mcont
                  [("+colour", VStr "red"); ("", VNone)] module_world
                  eq_refl (or_intror (or_introl eq_refl)))).
  reflexivity.
Defined.

Lemma patch_without_type_raises_witness :
  _apply [] three_presets (VDict [("+colour", VStr "red")]) (Some "styles")
    None (VBool true)
    (Some (TLayer (mkLayer (Some 1) (Some FieldAction_default_style))))
    two_fields
  = Raise TypeError.
Proof.
  apply (patch_without_type_raises [] three_presets
           [("+colour", VStr "red")] (Some "styles") (VBool true)
           (Some (TLayer (mkLayer (Some 1) (Some FieldAction_default_style))))
           two_fields eq_refl eq_refl).
  - discriminate.
  - repeat constructor.
  - reflexivity.
Defined.

Lemma parameters_of_one_type_make_a_directive_witness :
  _apply three_parameters (fun _ _ => None)
    (VDict [("contour", VBool true); ("contour_level_count", VInt 10)])
    None None (VBool true) None module_world
  = Ok (Some 1)
       (World (heap module_world ++
               [Instance mcont [("contour", VBool true);
                                ("contour_level_count", VInt 10)]]) []).
Proof.
  apply (parameters_of_one_type_make_a_directive three_parameters
           (fun _ _ => None)
           [("contour", VBool true); ("contour_level_count", VInt 10)]
           "mcont" mcont None None (VBool true) None module_world
           eq_refl eq_refl).
  - discriminate.
  - repeat constructor; discriminate.
  - intros k [<-|[<-|[]]]; reflexivity.
  - reflexivity.
Defined.

Lemma patches_create_nothing_witness :
  Some 0 = target_style (Some (TAction 0)) /\ Some 0 <> None /\
  length [Instance mcont [("contour_automatic_setting", VStr "ecmwf");
                          ("legend", VBool false);
                          ("colour", VStr "red")]]
  = length (heap module_world).
Proof.
  refine (proj1 (patches_create_nothing [] (fun _ _ => None)
                   [("+colour", VStr "red")] None (Some (GCls mcont))
                   (VBool true) (Some (TAction 0)) module_world (Some 0)
                   (World [Instance mcont
                             [("contour_automatic_setting", VStr "ecmwf");
                              ("legend", VBool false);
                              ("colour", VStr "red")]]
                          [CannotEstablish ["+colour"]])
                   _ _ eq_refl) eq_refl).
  - discriminate.
  - repeat constructor.
Defined.

Lemma plot_netcdf_dimensions_witness :
  plot_netcdf (initial_driver [] None None) (VStr "b.nc") (VStr "t2m")
    (VDict [("time", VInt 3); ("level", VStr "500")]) module_world
  = Ok (set_layers (initial_driver [] None None)
          [mkLayer (Some 1) (Some FieldAction_default_style)])
       (World (heap module_world ++
               [Instance mnetcdf
                  [("netcdf_filename", VStr "b.nc");
                   ("netcdf_value_variable", VStr "t2m");
                   ("netcdf_dimension_setting",
                    VList [VStr "time:3"; VStr "level:500"]);
                   ("netcdf_dimension_setting_method", VStr "index")]]) []).
Proof.
  refine (proj2 (proj1 (proj2 (proj2
            (plot_netcdf_dimensions (initial_driver [] None None)
               (VStr "b.nc") (VStr "t2m") module_world)))
            [("time", VInt 3); ("level", VStr "500")]
            [VStr "time:3"; VStr "level:500"] _ eq_refl)).
  discriminate.
Defined.

Lemma plot_grib_appends_a_layer_witness :
  plot_grib (initial_driver [] None None) (VStr "a.grib") (VInt 120)
    module_world
  = Ok (set_layers (initial_driver [] None None)
          [mkLayer (Some 1) (Some FieldAction_default_style)])
       (World (heap module_world ++
               [Instance mgrib
                  [("grib_input_file_name", VStr "a.grib");
                   ("grib_file_address_mode", VStr "byte_offset");
                   ("grib_field_position", VInt 120)]]) []).
Proof.
  exact (proj1 (plot_grib_appends_a_layer (initial_driver [] None None)
                  (VStr "a.grib") (VInt 120) 120 module_world eq_refl)).
Defined.

Lemma decorations_are_listed_in_a_fixed_order_witness :
  exists self' w',
    show_decorations decorated_driver module_world = Ok self' w' /\
    length (heap w') = length (heap module_world) + 4 /\
    _grid self' = Some 1 /\ _borders self' = Some 2 /\
    _rivers self' = Some 3 /\ _cities self' = Some 4 /\
    macro self' = [3; 2; 4; 1].
Proof.
  exact (proj1 (decorations_are_listed_in_a_fixed_order decorated_driver
                  module_world) eq_refl eq_refl eq_refl eq_refl).
Defined.
